(** * Section identification batch: a shallow embedding of
      [transform/4_identify_sections.py]

    The script loads a collection of publications, asks an LLM for the page
    ranges of the sections of every document that has no entry in the output
    file yet, and rewrites the output file with the old and the new entries.

    Layout of this file:
    - JSON values, as [json.load] produces them;
    - the Pydantic models with their validators and [model_dump];
    - exceptions and a state-and-exception monad for [process_text];
    - the [tenacity] decorator [retry(stop_after_attempt, wait_exponential)];
    - [process_text] and [process_documents_concurrently];
    - the [asyncio.Semaphore] protocol of [process_with_semaphore] as a
      transition system;
    - the properties. *)

From Stdlib Require Import ZArith.
From stdpp Require Import base strings gmap list.

Local Open Scope Z_scope.
Local Open Scope string_scope.
Local Open Scope list_scope.
#[local] Set Warnings "-register-all,-clear-no-such-hyp".

(** ** JSON values

    What [json.load] returns and what [json.dump] accepts.  An integer
    literal is a [JInt]; a number written with a fraction or an exponent is
    kept as its literal.  The members of an object are the items of the
    parsed [dict], in order. *)

Inductive json : Type :=
| JNull
| JBool (b : bool)
| JInt (n : Z)
| JFloat (literal : string)
| JStr (s : string)
| JArr (items : list json)
| JObj (members : list (string * json)).

(** [members.get(key)] *)
Fixpoint dict_get (key : string) (members : list (string * json)) : option json :=
  match members with
  | [] => None
  | (k, v) :: rest => if decide (k = key) then Some v else dict_get key rest
  end.

(** Pydantic validates a model from a Python object ([model_validate]) or
    from JSON text ([model_validate_json]); both run in lax mode here. *)
Inductive validation_mode := PythonMode | JsonMode.

(** ** Input models (lines 25-38) *)

Record TextPage := mkTextPage {
  page_number : Z;
  text_content : string }.

Record TextDocument := mkTextDocument {
  doc_id : string;
  pages : list TextPage }.

Record TextPublication := mkTextPublication {
  pub_id : string;
  documents : list TextDocument }.

(** ** Output models (lines 44-58) *)

Record SectionPageRange := mkSectionPageRange {
  start_page : Z;
  end_page : Z }.

Record Sections := mkSections {
  front_matter : option SectionPageRange;
  contents : option SectionPageRange;
  list_of_figures : option SectionPageRange;
  list_of_tables : option SectionPageRange;
  body : option SectionPageRange;
  references : option SectionPageRange;
  end_notes : option SectionPageRange;
  annexes : option SectionPageRange }.

(** The field names of [Sections], in declaration order. *)
Definition section_names : list string :=
  ["front_matter"; "contents"; "list_of_figures"; "list_of_tables";
   "body"; "references"; "end_notes"; "annexes"].

(** The result store: the [dict] read from and written to the output file,
    from document identifier to the dumped sections. *)
Abbreviation store := (gmap string json).

(** ** Exceptions

    Every constructor is an instance of Python's [Exception], which is what
    the two [except Exception] clauses of the script catch.  Signals that
    only derive from [BaseException] (task cancellation, keyboard interrupt)
    end the process and are outside this model. *)

Inductive exception :=
| APIError (message : string)      (* whatever [acompletion] raises *)
| ValueError (message : string)
| ValidationError                  (* pydantic_core.ValidationError *)
| IndexError
| TypeError
| OSError                          (* [open] on a missing or unreadable file *)
| RetryError.                      (* tenacity, when the attempts are used up *)

Inductive outcome (A : Type) :=
| Returned (a : A)
| Raised (e : exception).
Arguments Returned {A} a.
Arguments Raised {A} e.

(** Error-level records of the module logger (info and debug records are
    not modelled).  The text of a record is determined by its payload. *)
Inductive log_record :=
| ErrorParsingPublication (pub_data : json)          (* line 138 *)
| ErrorTextProcessing (e : exception)                (* line 101 *)
| ErrorFailedDocs (failed_docs : list string).       (* line 186 *)

(** ** The classification call

    One answer of [acompletion]: it raises, or it returns a stream wrapper
    or a [ModelResponse] with its choices.  The content of a choice is
    [None] or a string; a string is given with its JSON value when it is
    well-formed JSON. *)

Inductive message_content :=
| NoContent
| Text (value : option json).

Inductive response :=
| CustomStreamWrapper
| ModelResponse (choices : list message_content).

Inductive completion :=
| Raises (e : exception)
| Responds (r : response).

(** ** State of one [process_text] invocation *)

Record world := mkWorld {
  calls : nat;                 (* [acompletion] calls made so far *)
  sleeps : list Z;             (* waits between attempts, oldest first *)
  log : list log_record }.     (* error records, oldest first *)

Definition initial_world : world := mkWorld 0 [] [].

Definition M (A : Type) : Type := world → outcome A * world.

#[global] Instance M_ret : MRet M := λ A a w, (Returned a, w).
#[global] Instance M_bind : MBind M := λ A B f m w,
  match m w with
  | (Returned a, w') => f a w'
  | (Raised e, w') => (Raised e, w')
  end.
#[global] Instance M_fmap : FMap M := λ A B f m w,
  match m w with
  | (Returned a, w') => (Returned (f a), w')
  | (Raised e, w') => (Raised e, w')
  end.

Definition raise {A} (e : exception) : M A := λ w, (Raised e, w).

(** [try: m except Exception as e: handler e] *)
Definition try_except {A} (m : M A) (handler : exception → M A) : M A := λ w,
  match m w with
  | (Returned a, w') => (Returned a, w')
  | (Raised e, w') => handler e w'
  end.

Definition logger_error (r : log_record) : M unit := λ w,
  (Returned (), mkWorld (calls w) (sleeps w) (log w ++ [r])).

Definition sleep (seconds : Z) : M unit := λ w,
  (Returned (), mkWorld (calls w) (sleeps w ++ [seconds]) (log w)).

(** [await acompletion(...)]: the [k]-th call of this invocation gets the
    [k]-th answer of the collaborator. *)
Definition acompletion (llm : nat → completion) : M response := λ w,
  let w' := mkWorld (S (calls w)) (sleeps w) (log w) in
  match llm (calls w) with
  | Raises e => (Raised e, w')
  | Responds r => (Returned r, w')
  end.

(** ** tenacity (line 63) *)

(** [stop_after_attempt(max_attempt_number)] *)
Definition stop_after_attempt (max_attempt_number attempt_number : nat) : bool :=
  bool_decide (max_attempt_number ≤ attempt_number)%nat.

(** [wait_exponential(multiplier, min, max)]:
    [max(max(0, min), min(multiplier * 2 ** (attempt_number - 1), max))] *)
Definition wait_exponential (multiplier min max : Z) (attempt_number : nat) : Z :=
  Z.max (Z.max 0 min) (Z.min (multiplier * 2 ^ (Z.of_nat attempt_number - 1)) max).

(** The loop of the decorator, for the stop rule [stop_after_attempt]:
    call [fn]; a returned value is the result; after an exception, stop with
    [RetryError] when no attempt is left, else sleep and call again.
    [attempts_left] is [max_attempt_number - attempt_number]. *)
Fixpoint retry_loop {A} (wait : nat → Z) (fn : M A)
    (attempts_left attempt_number : nat) : M A := λ w,
  match fn w with
  | (Returned a, w') => (Returned a, w')
  | (Raised e, w') =>
      match attempts_left with
      | O => (Raised RetryError, w')
      | S n =>
          match sleep (wait attempt_number) w' with
          | (_, w'') => retry_loop wait fn n (S attempt_number) w''
          end
      end
  end.

Definition retry {A} (max_attempt_number : nat) (wait : nat → Z) (fn : M A) : M A :=
  retry_loop wait fn (max_attempt_number - 1) 1.

(** ** Validators and dumps of the models *)

(** A [str] field accepts a string and nothing else that JSON can hold. *)
Definition str_validator (value : json) : option string :=
  match value with
  | JStr s => Some s
  | _ => None
  end.

(** A [List[T]] field accepts an array whose items all validate. *)
Definition list_validator {A} (item : json → option A) (value : json) : option (list A) :=
  match value with
  | JArr items => mapM item items
  | _ => None
  end.

(** A field declared with [Field(...)] or [Field(description=...)] has no
    default: the key must be there. *)
Definition required {A} (key : string) (validator : json → option A)
    (members : list (string * json)) : option A :=
  dict_get key members ≫= validator.

(** A field declared with [default_factory] takes the default when the key
    is missing. *)
Definition with_default {A} (key : string) (validator : json → option A)
    (default : A) (members : list (string * json)) : option A :=
  match dict_get key members with
  | None => Some default
  | Some value => validator value
  end.

Definition SectionPageRange_model_dump (r : SectionPageRange) : json :=
  JObj [("start_page", JInt (start_page r)); ("end_page", JInt (end_page r))].

Definition dump_optional (o : option SectionPageRange) : json :=
  from_option SectionPageRange_model_dump JNull o.

(** [sections_obj.model_dump()] *)
Definition Sections_model_dump (s : Sections) : json :=
  JObj [("front_matter", dump_optional (front_matter s));
        ("contents", dump_optional (contents s));
        ("list_of_figures", dump_optional (list_of_figures s));
        ("list_of_tables", dump_optional (list_of_tables s));
        ("body", dump_optional (body s));
        ("references", dump_optional (references s));
        ("end_notes", dump_optional (end_notes s));
        ("annexes", dump_optional (annexes s))].

(** A string is held as the bytes of its UTF-8 encoding, and Python
    iterates a [str] by characters (code points).  A byte [10xxxxxx]
    continues the character of the byte before it. *)
Definition is_continuation (c : Ascii.ascii) : bool :=
  match c with
  | Ascii.Ascii _ _ _ _ _ _ b6 b7 => b7 && negb b6
  end.

Definition starts_with_continuation (s : string) : bool :=
  match s with
  | String c _ => is_continuation c
  | EmptyString => false
  end.

(** The characters of a string, each with all its bytes. *)
Fixpoint code_points (s : string) : list string :=
  match s with
  | EmptyString => []
  | String c rest =>
      match code_points rest with
      | first :: others =>
          if starts_with_continuation rest then String c first :: others
          else String c EmptyString :: first :: others
      | [] => [String c EmptyString]
      end
  end.

(** [iter(content)] of line 133: a list yields its items, a dict its keys, a
    string its characters; [None], booleans and numbers are not iterable. *)
Definition iterate (content : json) : outcome (list json) :=
  match content with
  | JArr items => Returned items
  | JObj members => Returned ((λ kv, JStr kv.1) <$> members)
  | JStr s => Returned (JStr <$> code_points s)
  | _ => Raised TypeError
  end.

(** An [int] field accepts an integer; which other scalars Pydantic's lax
    mode coerces to an integer is left open. *)
Definition strict_int (mode : validation_mode) (value : json) : option Z :=
  match value with
  | JInt n => Some n
  | _ => None
  end.

(** The dict that [process_text] returns on success: one item, the document
    identifier with its sections. *)
Abbreviation Result := (list (string * Sections)).

(** ** [process_with_semaphore] (lines 143, 154-157)

    Every task runs [async with semaphore: return await process_text(doc)].
    Tasks interleave at their [await]s only, so a state of the pool is the
    free capacity of the semaphore and, per task, whether it still waits in
    [acquire], is inside the [async with] block, or has left it.  Leaving the
    block runs [release], whether [process_text] returned or raised.
    A waiting task is admitted only when a unit is free; which of several
    waiting tasks goes first is not fixed.

    [sem_value] counts the units that no task inside its block holds.  It
    is the counter of the semaphore, except that an interpreter whose
    [release] hands the unit to the first waiter at once shows a counter
    lower by one from that moment until the waiter resumes and enters its
    block. *)

Inductive task_state :=
| Waiting
| Holding
| Exited (o : outcome (option Result)).

Record pool := mkPool {
  sem_value : Z;
  task_states : list task_state }.

Inductive event :=
| Acquire (i : nat)     (* task [i] gets through [acquire] *)
| Exit (i : nat).       (* task [i] leaves the block: [release] *)

(** The default of the parameter [max_concurrency] (line 107). *)
Definition default_max_concurrency : Z := 5.

(** [asyncio.Semaphore(value)] *)
Definition Semaphore (value : Z) : outcome Z :=
  if decide (value < 0) then Raised (ValueError "Semaphore initial value must be >= 0")
  else Returned value.

Definition pool_init (value : Z) (tasks : nat) : pool :=
  mkPool value (replicate tasks Waiting).

(** One event; [None] when the event cannot happen in this state.
    [outcomes !! i] is how the body of task [i] ends. *)
Definition pool_step (outcomes : list (outcome (option Result))) (ev : event) (p : pool)
    : option pool :=
  match ev with
  | Acquire i =>
      match task_states p !! i with
      | Some Waiting =>
          if decide (0 < sem_value p)
          then Some (mkPool (sem_value p - 1) (<[i := Holding]> (task_states p)))
          else None
      | _ => None
      end
  | Exit i =>
      match task_states p !! i, outcomes !! i with
      | Some Holding, Some o =>
          Some (mkPool (sem_value p + 1) (<[i := Exited o]> (task_states p)))
      | _, _ => None
      end
  end.

Fixpoint pool_run (outcomes : list (outcome (option Result))) (schedule : list event)
    (p : pool) : option pool :=
  match schedule with
  | [] => Some p
  | ev :: rest => pool_step outcomes ev p ≫= pool_run outcomes rest
  end.

Definition is_holding (t : task_state) : bool :=
  match t with
  | Holding => true
  | _ => false
  end.

(** The number of [process_text] invocations in flight. *)
Definition in_flight (p : pool) : nat :=
  length (filter (λ t, is_holding t) (task_states p)).

Definition holding_weight (t : task_state) : nat := if is_holding t then 1 else 0.

(** The invariant of the pool: the counter is not negative, and the counter
    and the invocations in flight add up to the capacity. *)
Definition pool_inv (capacity : Z) (p : pool) : Prop :=
  (0 ≤ sem_value p)%Z ∧ sem_value p + Z.of_nat (in_flight p) = capacity.

(** How far a task has got: one event to be admitted, one more to leave. *)
Definition task_progress (t : task_state) : nat :=
  match t with
  | Waiting => 0
  | Holding => 1
  | Exited _ => 2
  end.

(** The schedule that runs the tasks [first], [first + 1], ... one after
    the other. *)
Fixpoint sequential_schedule (first tasks : nat) : list event :=
  match tasks with
  | O => []
  | S n => Acquire first :: Exit first :: sequential_schedule (S first) n
  end.

(** ** Sample data for the examples at the end of the file *)

(** [{"doc_id": id, "pages": [{"page_number": 1, "text_content": "text"}]}] *)
Definition sample_document (id : string) : json :=
  JObj [("doc_id", JStr id);
        ("pages", JArr [JObj [("page_number", JInt 1); ("text_content", JStr "text")]])].

(** [{"pub_id": id, "documents": docs}] *)
Definition sample_publication (id : string) (docs : list json) : json :=
  JObj [("pub_id", JStr id); ("documents", JArr docs)].

(** A payload with a body from page 1 to page 3 and null everywhere else. *)
Definition body_only : json :=
  JObj [("front_matter", JNull); ("contents", JNull); ("list_of_figures", JNull);
        ("list_of_tables", JNull);
        ("body", JObj [("start_page", JInt 1); ("end_page", JInt 3)]);
        ("references", JNull); ("end_notes", JNull); ("annexes", JNull)].

(** [body_only] without its ["body"] key. *)
Definition no_body : list (string * json) :=
  [("front_matter", JNull); ("contents", JNull); ("list_of_figures", JNull);
   ("list_of_tables", JNull); ("references", JNull); ("end_notes", JNull);
   ("annexes", JNull)].

Definition body_only_sections : Sections :=
  mkSections None None None None (Some (mkSectionPageRange 1 3)) None None None.

(** A payload with null for every section, and what it validates to. *)
Definition all_null : json :=
  JObj ((λ name, (name, JNull)) <$> section_names).

Definition no_sections : Sections :=
  mkSections None None None None None None None None.

(** A collaborator that answers [body_only] to the task at position 0 and
    [all_null] to the others. *)
Definition body_first : nat → TextDocument → nat → completion :=
  λ i _ _, match i with
           | O => Responds (ModelResponse [Text (Some body_only)])
           | S _ => Responds (ModelResponse [Text (Some all_null)])
           end.

(** A collaborator that fails the task at position 0 and answers
    [body_only] to the others. *)
Definition fails_first : nat → TextDocument → nat → completion :=
  λ i _ _, match i with
           | O => Raises (APIError "timeout")
           | S _ => Responds (ModelResponse [Text (Some body_only)])
           end.

(** A call that raises twice and then answers [body_only]. *)
Definition third_time_lucky : nat → completion :=
  λ attempt, match attempt with
             | S (S _) => Responds (ModelResponse [Text (Some body_only)])
             | _ => Raises (APIError "timeout")
             end.

(** A collaborator that answers every call with [body_only]. *)
Definition always_answers : nat → TextDocument → nat → completion :=
  λ _ _ _, Responds (ModelResponse [Text (Some body_only)]).

(** A collaborator that fails every call for the documents named [failing]
    and answers [body_only] for the others. *)
Definition fails_for (failing : string) : TextDocument → completion :=
  λ doc, if decide (doc_id doc = failing) then Raises (APIError "timeout")
         else Responds (ModelResponse [Text (Some body_only)]).

(** Closed decidable goals, by evaluation. *)
Ltac by_computation := refine (bool_decide_unpack _ _); vm_compute; exact I.

Section Script.

(** Pydantic's validator of an [int] field. *)
Context (int_validator : validation_mode → json → option Z).

Definition TextPage_model_validate (value : json) : option TextPage :=
  match value with
  | JObj members =>
      n ← required "page_number" (int_validator PythonMode) members;
      t ← required "text_content" str_validator members;
      Some (mkTextPage n t)
  | _ => None
  end.

Definition TextDocument_model_validate (value : json) : option TextDocument :=
  match value with
  | JObj members =>
      d ← required "doc_id" str_validator members;
      ps ← with_default "pages" (list_validator TextPage_model_validate) [] members;
      Some (mkTextDocument d ps)
  | _ => None
  end.

Definition TextPublication_model_validate (value : json) : option TextPublication :=
  match value with
  | JObj members =>
      p ← required "pub_id" str_validator members;
      ds ← with_default "documents" (list_validator TextDocument_model_validate) [] members;
      Some (mkTextPublication p ds)
  | _ => None
  end.

Definition SectionPageRange_model_validate (value : json) : option SectionPageRange :=
  match value with
  | JObj members =>
      s ← required "start_page" (int_validator JsonMode) members;
      e ← required "end_page" (int_validator JsonMode) members;
      Some (mkSectionPageRange s e)
  | _ => None
  end.

(** [SectionPageRange | None] *)
Definition optional_range (value : json) : option (option SectionPageRange) :=
  match value with
  | JNull => Some None
  | _ => Some <$> SectionPageRange_model_validate value
  end.

Definition Sections_model_validate (value : json) : option Sections :=
  match value with
  | JObj members =>
      a ← required "front_matter" optional_range members;
      b ← required "contents" optional_range members;
      c ← required "list_of_figures" optional_range members;
      d ← required "list_of_tables" optional_range members;
      e ← required "body" optional_range members;
      f ← required "references" optional_range members;
      g ← required "end_notes" optional_range members;
      h ← required "annexes" optional_range members;
      Some (mkSections a b c d e f g h)
  | _ => None
  end.

(** [Sections.model_validate_json(content)]: [None] stands for the
    [ValidationError] (or the [TypeError] for a content that is no string). *)
Definition Sections_model_validate_json (content : message_content) : option Sections :=
  match content with
  | NoContent => None
  | Text None => None
  | Text (Some value) => Sections_model_validate value
  end.

(** ** [process_text] (lines 63-102) *)

(** The [try] block. *)
Definition process_text_body (llm : nat → completion) (text_document : TextDocument)
    : M (option Result) :=
  response ← acompletion llm;
  content ← match response with
            | CustomStreamWrapper => raise (ValueError "Streaming response not supported")
            | ModelResponse choices =>
                match choices with
                | [] => raise IndexError
                | choice :: _ => mret choice
                end
            end;
  match Sections_model_validate_json content with
  | None => raise ValidationError
  | Some sections => mret (Some [(doc_id text_document, sections)])
  end.

(** The function as written: the body under its [except Exception]. *)
Definition process_text_fn (llm : nat → completion) (text_document : TextDocument)
    : M (option Result) :=
  try_except (process_text_body llm text_document)
    (λ e, logger_error (ErrorTextProcessing e) ;; mret None).

(** The function under its decorator. *)
Definition process_text (llm : nat → completion) (text_document : TextDocument)
    : M (option Result) :=
  retry 3 (wait_exponential 1 4 10) (process_text_fn llm text_document).

(** ** [process_documents_concurrently] (lines 107-190) *)

(** Lines 132-138: validate every entry of the collection; an entry that
    fails is logged and skipped. *)
Definition load_publications (content : list json)
    : list TextPublication * list log_record :=
  foldl (λ '(publications, errors) pub_data,
           match TextPublication_model_validate pub_data with
           | Some publication => (publications ++ [publication], errors)
           | None => (publications, errors ++ [ErrorParsingPublication pub_data])
           end)
        ([], []) content.

(** Lines 146-150: the documents with no entry in the existing store. *)
Definition collect_new_documents (existing_headings : store)
    (publications : list TextPublication) : list TextDocument :=
  foldl (λ all_documents pub,
           foldl (λ all_documents doc,
                    match existing_headings !! doc_id doc with
                    | None => all_documents ++ [doc]
                    | Some _ => all_documents
                    end)
                 all_documents (documents pub))
        [] publications.

(** Line 157, for the task at position [i]: the collaborator's answers to
    this task are [llm i document]. *)
Definition run_task (llm : nat → TextDocument → nat → completion)
    (i : nat) (document : TextDocument) : outcome (option Result) * world :=
  process_text (llm i document) document initial_world.

(** Line 163: [asyncio.gather] returns the values in the order of the tasks,
    or raises what a task raised. *)
Fixpoint gather {A} (tasks : list (outcome A)) : outcome (list A) :=
  match tasks with
  | [] => Returned []
  | Raised e :: _ => Raised e
  | Returned a :: rest =>
      match gather rest with
      | Returned values => Returned (a :: values)
      | Raised e => Raised e
      end
  end.

(** Line 166 *)
Definition filter_results (results : list (option Result)) : list Result :=
  omap id results.

(** Lines 169-174: copy the existing store, then write every item of every
    result into it. *)
Definition combine_results (existing_headings : store) (results : list Result) : store :=
  foldl (λ headings_data result,
           foldl (λ headings_data '(doc_id, sections_obj),
                    <[doc_id := Sections_model_dump sections_obj]> headings_data)
                 headings_data result)
        existing_headings results.

(** Line 184 *)
Definition find_failed_docs (all_documents : list TextDocument) (headings_data : store)
    : list string :=
  doc_id <$> filter (λ doc, headings_data !! doc_id doc = None) all_documents.

(** What a completed run has computed. *)
Record batch := mkBatch {
  publications : list TextPublication;
  parse_log : list log_record;           (* records of line 138 *)
  all_documents : list TextDocument;
  task_worlds : list world;              (* final state of every task *)
  gathered : list (option Result);       (* line 163 *)
  results : list Result;                 (* line 166 *)
  headings_data : store;                 (* written to the output file *)
  failed_docs : list string;
  report_log : list log_record }.        (* the record of line 186, if any *)

(** The whole function.  [input_file] is the parsed content of the input
    file, [None] when it cannot be opened; [output_file] is the store in the
    output file, [None] when the file does not exist.  The result is [None]
    when [gather] never completes: a semaphore of value 0 admits no task.
    The handler of line 188 logs the exception and raises it again.

    Covered are files that hold JSON, an output file whose content is an
    object, and a write that succeeds.  A file that is not JSON (lines 125,
    129), an output file that holds another JSON value (lines 126, 169,
    174) and a failing write (line 178) raise as well and have no
    counterpart here. *)
Definition process_documents_concurrently
    (input_file : option json) (output_file : option store)
    (max_concurrency : Z) (llm : nat → TextDocument → nat → completion)
    : option (outcome batch) :=
  let existing_headings := default ∅ output_file in
  match input_file with
  | None => Some (Raised OSError)
  | Some content =>
      match iterate content with
      | Raised e => Some (Raised e)
      | Returned items =>
          let '(publications, parse_log) := load_publications items in
          match Semaphore max_concurrency with
          | Raised e => Some (Raised e)
          | Returned value =>
              let all_documents :=
                collect_new_documents existing_headings publications in
              if decide (value = 0 ∧ all_documents ≠ []) then None
              else
                let tasks := imap (run_task llm) all_documents in
                match gather (fst <$> tasks) with
                | Raised e => Some (Raised e)
                | Returned gathered =>
                    let results := filter_results gathered in
                    let headings_data := combine_results existing_headings results in
                    let failed_docs := find_failed_docs all_documents headings_data in
                    Some (Returned
                      (mkBatch publications parse_log all_documents (snd <$> tasks)
                         gathered results headings_data failed_docs
                         (if decide (failed_docs = []) then []
                          else [ErrorFailedDocs failed_docs])))
                end
          end
      end
  end.

(** The output file after the call: rewritten by a run that completes,
    untouched otherwise. *)
Definition output_after (output_file : option store) (run : option (outcome batch))
    : option store :=
  match run with
  | Some (Returned b) => Some (headings_data b)
  | _ => output_file
  end.

(** Lines 192-198: the script runs the function with the default capacity. *)
Definition main (input_file : option json) (output_file : option store)
    (llm : nat → TextDocument → nat → completion) : option (outcome batch) :=
  process_documents_concurrently input_file output_file default_max_concurrency llm.

(** The [try] block of [process_text] in one look: what an answer of the
    collaborator comes to, the validated sections or the exception raised
    ([process_text_fn_spec] below relates it to the function). *)
Definition classify (answer : completion) : exception + Sections :=
  match answer with
  | Raises e => inl e
  | Responds CustomStreamWrapper => inl (ValueError "Streaming response not supported")
  | Responds (ModelResponse []) => inl IndexError
  | Responds (ModelResponse (choice :: _)) =>
      match Sections_model_validate_json choice with
      | None => inl ValidationError
      | Some sections => inr sections
      end
  end.

(** The value that the task at position [i] hands to [gather]
    ([run_task_spec] below). *)
Definition task_value (llm : nat → TextDocument → nat → completion)
    (i : nat) (doc : TextDocument) : option Result :=
  match classify (llm i doc 0%nat) with
  | inl _ => None
  | inr sections => Some [(doc_id doc, sections)]
  end.

(** One write of the merge loop. *)
Definition write_entry (headings_data : store) (entry : string * Sections) : store :=
  <[entry.1 := Sections_model_dump entry.2]> headings_data.

(** The merge rule in the words of the specification, for one outcome: a
    success inserts or overwrites its entries, a failure contributes
    nothing. *)
Definition merge_outcome (headings_data : store) (o : option Result) : store :=
  match o with
  | Some result => foldl write_entry headings_data result
  | None => headings_data
  end.

(** * Properties *)

(** ** The decorator *)

Lemma retry_loop_returned {A} (wait : nat → Z) (fn : M A) n k w a w' :
  fn w = (Returned a, w') → retry_loop wait fn n k w = (Returned a, w').
Proof. intros Hfn. destruct n; simpl; by rewrite Hfn. Qed.

(** The recursion argument of [retry_loop] is the stop rule. *)
Lemma stop_after_attempt_left (max_attempt_number left : nat) :
  (left < max_attempt_number)%nat →
  stop_after_attempt max_attempt_number (max_attempt_number - left) = bool_decide (left = 0%nat).
Proof.
  intros Hlt. unfold stop_after_attempt.
  apply bool_decide_ext. lia.
Qed.

(** A function that raises every time is called three times, with a wait of
    4 after the first and after the second attempt, and the decorator then
    raises [RetryError]. *)
Lemma retry_always_raising e :
  retry 3 (wait_exponential 1 4 10) (acompletion (λ _, Raises e)) initial_world
  = (Raised RetryError, mkWorld 3 [4; 4] []).
Proof. reflexivity. Qed.

Lemma wait_exponential_values :
  wait_exponential 1 4 10 <$> [1; 2; 3; 4; 5; 6]%nat = [4; 4; 4; 8; 10; 10].
Proof. reflexivity. Qed.

(** ** [process_text] *)

Lemma process_text_fn_spec llm doc w :
  process_text_fn llm doc w =
    match classify (llm (calls w)) with
    | inl e => (Returned None,
                mkWorld (S (calls w)) (sleeps w) (log w ++ [ErrorTextProcessing e]))
    | inr sections => (Returned (Some [(doc_id doc, sections)]),
                       mkWorld (S (calls w)) (sleeps w) (log w))
    end.
Proof.
  unfold process_text_fn, try_except, process_text_body, classify, acompletion,
    mbind, M_bind, mret, M_ret, raise, logger_error.
  destruct (llm (calls w)) as [e|[|[|choice rest]]]; simpl; try done.
  by destruct (Sections_model_validate_json choice).
Qed.

Lemma process_text_spec llm doc w :
  process_text llm doc w = process_text_fn llm doc w.
Proof.
  unfold process_text, retry.
  destruct (process_text_fn llm doc w) as [[r|e] w'] eqn:Hfn.
  - by apply retry_loop_returned.
  - rewrite process_text_fn_spec in Hfn. by destruct (classify _).
Qed.

(** C1: an item whose classification call fails on every attempt.  The
    claim asks for three attempts with waits in between; the function makes
    ONE call, sleeps never, logs the error and returns [None]: its own
    [except Exception] turns the failure into a normal return, and the
    decorator only retries a call that raised. *)
Theorem process_text_single_attempt (e : exception) (doc : TextDocument) :
  process_text (λ _, Raises e) doc initial_world
  = (Returned None, mkWorld 1 [] [ErrorTextProcessing e]).
Proof. by rewrite process_text_spec, process_text_fn_spec. Qed.

(** Whatever the collaborator answers, one invocation makes one call and
    never waits. *)
Lemma process_text_calls llm doc w :
  calls (process_text llm doc w).2 = S (calls w) ∧
  sleeps (process_text llm doc w).2 = sleeps w.
Proof.
  rewrite process_text_spec, process_text_fn_spec.
  by destruct (classify _).
Qed.

(** C2: [process_text] never raises: from every state and for every answer
    of the collaborator it returns a value, and the value is [None] when the
    call raised, when the answer is a stream wrapper, when it has no choice
    to read, and when its content does not validate (not a string, not JSON,
    or not a [Sections] object). *)
Theorem process_text_never_raises llm doc w :
  ∃ r w', process_text llm doc w = (Returned r, w') ∧
    (∀ e, llm (calls w) = Raises e → r = None) ∧
    (llm (calls w) = Responds CustomStreamWrapper → r = None) ∧
    (llm (calls w) = Responds (ModelResponse []) → r = None) ∧
    (∀ choice rest, llm (calls w) = Responds (ModelResponse (choice :: rest)) →
       Sections_model_validate_json choice = None → r = None).
Proof.
  rewrite process_text_spec, process_text_fn_spec.
  destruct (classify (llm (calls w))) as [e|sections] eqn:Hc; eexists _, _;
    (split; [reflexivity|]).
  - done.
  - unfold classify in Hc. repeat split.
    + intros e He. by rewrite He in Hc.
    + intros He. by rewrite He in Hc.
    + intros He. by rewrite He in Hc.
    + intros choice rest He Hv. rewrite He in Hc. by rewrite Hv in Hc.
Qed.

(** ** Validation of the payload *)

Lemma required_missing {A} key (validator : json → option A) members :
  dict_get key members = None → required key validator members = None.
Proof. unfold required. by intros ->. Qed.

(** C10: a payload that lacks one of the eight keys of [Sections] does not
    validate, and [process_text] then returns [None] for the item; a payload
    that has all eight keys validates also when every value is null. *)
Theorem sections_require_all_keys members key :
  key ∈ section_names →
  dict_get key members = None →
  Sections_model_validate_json (Text (Some (JObj members))) = None
  ∧ (∀ llm doc rest,
       llm 0%nat = Responds (ModelResponse (Text (Some (JObj members)) :: rest)) →
       process_text llm doc initial_world
       = (Returned None, mkWorld 1 [] [ErrorTextProcessing ValidationError]))
  ∧ Sections_model_validate_json
      (Text (Some (JObj ((λ name, (name, JNull)) <$> section_names))))
    = Some (mkSections None None None None None None None None).
Proof.
  intros Hkey Hget.
  assert (Sections_model_validate (JObj members) = None) as Hv.
  { unfold Sections_model_validate.
    unfold section_names in Hkey.
    repeat (apply elem_of_cons in Hkey as [->|Hkey];
      [rewrite (required_missing _ _ _ Hget);
       repeat (match goal with
               | |- context [required ?k ?v ?m] =>
                   destruct (required k v m); simpl; try done
               end); done |]).
    by apply elem_of_nil in Hkey. }
  split; [exact Hv|]. split; [|reflexivity].
  intros llm doc rest Hllm.
  rewrite process_text_spec, process_text_fn_spec.
  change (calls initial_world) with 0%nat.
  unfold classify, Sections_model_validate_json. by rewrite Hllm, Hv.
Qed.

(** ** The steps of the batch *)

Lemma load_publications_acc content publications errors :
  foldl (λ '(publications, errors) pub_data,
           match TextPublication_model_validate pub_data with
           | Some publication => (publications ++ [publication], errors)
           | None => (publications, errors ++ [ErrorParsingPublication pub_data])
           end)
        (publications, errors) content
  = (publications ++ omap TextPublication_model_validate content,
     errors ++ (ErrorParsingPublication <$>
                  filter (λ j, TextPublication_model_validate j = None) content)).
Proof.
  revert publications errors.
  induction content as [|j content IH]; intros publications errors; simpl.
  - by rewrite !app_nil_r.
  - rewrite filter_cons.
    destruct (decide (TextPublication_model_validate j = None)) as [Hj|Hj].
    + rewrite Hj, IH. simpl. by rewrite <-app_assoc.
    + destruct (TextPublication_model_validate j); [|done].
      rewrite IH. simpl. by rewrite <-app_assoc.
Qed.

Lemma load_publications_spec content :
  load_publications content
  = (omap TextPublication_model_validate content,
     ErrorParsingPublication <$>
       filter (λ j, TextPublication_model_validate j = None) content).
Proof. unfold load_publications. by rewrite load_publications_acc. Qed.

Lemma collect_new_documents_inner (existing_headings : store) docs acc :
  foldl (λ all_documents doc,
           match existing_headings !! doc_id doc with
           | None => all_documents ++ [doc]
           | Some _ => all_documents
           end) acc docs
  = acc ++ filter (λ doc, existing_headings !! doc_id doc = None) docs.
Proof.
  revert acc. induction docs as [|doc docs IH]; intros acc; simpl.
  - by rewrite app_nil_r.
  - rewrite IH, filter_cons.
    destruct (decide (existing_headings !! doc_id doc = None)) as [Hd|Hd].
    + rewrite Hd. by rewrite <-app_assoc.
    + by destruct (existing_headings !! doc_id doc).
Qed.

(** The pending documents are the loaded ones without an entry, in the
    order of the input. *)
Lemma collect_new_documents_spec (existing_headings : store) publications :
  collect_new_documents existing_headings publications
  = filter (λ doc, existing_headings !! doc_id doc = None)
      (mjoin (documents <$> publications)).
Proof.
  unfold collect_new_documents.
  enough (∀ acc,
    foldl (λ all_documents pub,
             foldl (λ all_documents doc,
                      match existing_headings !! doc_id doc with
                      | None => all_documents ++ [doc]
                      | Some _ => all_documents
                      end) all_documents (documents pub)) acc publications
    = acc ++ filter (λ doc, existing_headings !! doc_id doc = None)
               (mjoin (documents <$> publications))) as H by apply (H []).
  induction publications as [|pub publications IH]; intros acc; simpl.
  - by rewrite app_nil_r.
  - by rewrite IH, collect_new_documents_inner, filter_app, <-app_assoc.
Qed.

Lemma run_task_spec llm i doc :
  (run_task llm i doc).1 = Returned (task_value llm i doc).
Proof.
  unfold run_task, task_value.
  rewrite process_text_spec, process_text_fn_spec.
  change (calls initial_world) with 0%nat.
  by destruct (classify _).
Qed.

Lemma gather_returned {A} (values : list A) :
  gather (Returned <$> values) = Returned values.
Proof. induction values as [|a values IH]; csimpl; [done|by rewrite IH]. Qed.

Lemma gather_tasks llm docs :
  gather (fst <$> imap (run_task llm) docs) = Returned (imap (task_value llm) docs).
Proof.
  rewrite <-gather_returned. f_equal.
  rewrite !fmap_imap. apply imap_ext. intros i doc _. simpl. apply run_task_spec.
Qed.

Lemma combine_results_spec (existing_headings : store) results :
  combine_results existing_headings results
  = foldl write_entry existing_headings (mjoin results).
Proof.
  unfold combine_results. revert existing_headings.
  induction results as [|result results IH]; intros E; simpl; [done|].
  rewrite foldl_app, IH. f_equal.
  clear. revert E. induction result as [|[k v] result IH]; intros E; simpl; [done|].
  by rewrite IH.
Qed.

Lemma write_entries_snoc (E : store) entries entry :
  foldl write_entry E (entries ++ [entry])
  = <[entry.1 := Sections_model_dump entry.2]> (foldl write_entry E entries).
Proof. by rewrite foldl_app. Qed.

(** Writing entries leaves every other identifier alone. *)
Lemma write_entries_other (E : store) entries id :
  id ∉ entries.*1 → foldl write_entry E entries !! id = E !! id.
Proof.
  induction entries as [|entry entries IH] using rev_ind; [done|].
  rewrite fmap_app, write_entries_snoc. simpl.
  intros Hid. apply not_elem_of_app in Hid as [Hid1 Hid2].
  rewrite lookup_insert_ne; [by apply IH|].
  intros Heq. apply Hid2. rewrite <-Heq. by left.
Qed.

(** The last write for an identifier is what the store holds. *)
Lemma write_entries_last (E : store) before after id sections :
  id ∉ after.*1 →
  foldl write_entry E (before ++ (id, sections) :: after) !! id
  = Some (Sections_model_dump sections).
Proof.
  intros Hid. rewrite foldl_app. simpl.
  rewrite write_entries_other by done.
  unfold write_entry. simpl. by rewrite lookup_insert_eq.
Qed.

Lemma write_entries_dom (E : store) entries :
  dom (foldl write_entry E entries) = dom E ∪ list_to_set entries.*1.
Proof.
  induction entries as [|entry entries IH] using rev_ind; simpl.
  - set_solver.
  - rewrite write_entries_snoc, dom_insert_L, IH, fmap_app, list_to_set_app_L.
    simpl. set_solver.
Qed.

Lemma write_entries_NoDup (E : store) entries id sections :
  NoDup entries.*1 → (id, sections) ∈ entries →
  foldl write_entry E entries !! id = Some (Sections_model_dump sections).
Proof.
  intros Hnd Hin. apply list_elem_of_split in Hin as (before & after & ->).
  apply write_entries_last.
  rewrite fmap_app, fmap_cons in Hnd. simpl in Hnd.
  apply NoDup_app in Hnd as (_ & _ & Hnd). by apply NoDup_cons in Hnd as [? _].
Qed.

(** Every success that [gather] hands over comes from one pending
    document and is filed under that document's identifier. *)
Lemma task_value_Some llm i doc result :
  task_value llm i doc = Some result → ∃ sections, result = [(doc_id doc, sections)].
Proof.
  unfold task_value. destruct (classify _) as [e|sections]; [done|].
  intros [= <-]. by exists sections.
Qed.

Lemma successes_elem llm docs id sections :
  (id, sections) ∈ mjoin (filter_results (imap (task_value llm) docs)) ↔
  ∃ i doc, docs !! i = Some doc ∧ id = doc_id doc ∧
           task_value llm i doc = Some [(id, sections)].
Proof.
  rewrite list_elem_of_join. unfold filter_results. split.
  - intros (result & Hin & Hres).
    apply list_elem_of_omap in Hres as (o & Ho & Heq).
    unfold Datatypes.id in Heq. subst o.
    apply list_elem_of_lookup in Ho as [i Hi].
    rewrite list_lookup_imap in Hi.
    destruct (docs !! i) as [doc|] eqn:Hdoc; [|done].
    simpl in Hi. injection Hi as Hi.
    destruct (task_value_Some _ _ _ _ Hi) as [s ->].
    apply list_elem_of_singleton in Hin as [= -> ->].
    by exists i, doc.
  - intros (i & doc & Hdoc & -> & Hv).
    exists [(doc_id doc, sections)]. split; [by apply list_elem_of_singleton|].
    apply list_elem_of_omap. exists (Some [(doc_id doc, sections)]). split; [|done].
    apply list_elem_of_lookup. exists i. by rewrite list_lookup_imap, Hdoc, <-Hv.
Qed.

Lemma successes_ids llm docs id :
  id ∈ (mjoin (filter_results (imap (task_value llm) docs))).*1 →
  id ∈ doc_id <$> docs.
Proof.
  intros Hin. apply list_elem_of_fmap in Hin as ([id' s] & -> & Hin).
  apply successes_elem in Hin as (i & doc & Hdoc & -> & _).
  apply list_elem_of_fmap. exists doc. split; [done|].
  by apply list_elem_of_lookup_2 with i.
Qed.

Lemma successes_sublist (f : nat → TextDocument → option Result) docs :
  (∀ i doc result, f i doc = Some result →
     ∃ sections, result = [(doc_id doc, sections)]) →
  (mjoin (filter_results (imap f docs))).*1 `sublist_of` doc_id <$> docs.
Proof.
  revert f. induction docs as [|doc docs IH]; intros f Hf; [done|].
  rewrite imap_cons. unfold filter_results. csimpl.
  destruct (f 0%nat doc) as [result|] eqn:Hr; simpl.
  - destruct (Hf _ _ _ Hr) as [s ->]. simpl.
    apply sublist_skip, IH. intros i d r. apply Hf.
  - apply sublist_cons, IH. intros i d r. apply Hf.
Qed.

Lemma successes_NoDup llm docs :
  NoDup (doc_id <$> docs) →
  NoDup (mjoin (filter_results (imap (task_value llm) docs))).*1.
Proof.
  intros Hnd. eapply sublist_NoDup; [exact Hnd|].
  apply successes_sublist, task_value_Some.
Qed.

(** The run completes for a positive capacity and an iterable input, and
    each of its values is the corresponding step of the function. *)
Lemma batch_spec content items output_file N llm :
  iterate content = Returned items →
  0 < N →
  ∃ b, process_documents_concurrently (Some content) output_file N llm
       = Some (Returned b) ∧
    publications b = omap TextPublication_model_validate items ∧
    parse_log b = (ErrorParsingPublication <$>
                     filter (λ j, TextPublication_model_validate j = None) items) ∧
    all_documents b = filter (λ doc, default ∅ output_file !! doc_id doc = None)
                        (mjoin (documents <$> publications b)) ∧
    gathered b = imap (task_value llm) (all_documents b) ∧
    results b = filter_results (gathered b) ∧
    headings_data b = foldl write_entry (default ∅ output_file) (mjoin (results b)) ∧
    failed_docs b = find_failed_docs (all_documents b) (headings_data b) ∧
    report_log b = (if decide (failed_docs b = []) then []
                    else [ErrorFailedDocs (failed_docs b)]) ∧
    task_worlds b = snd <$> imap (run_task llm) (all_documents b).
Proof.
  intros Hit HN. unfold process_documents_concurrently, Semaphore.
  rewrite Hit, load_publications_spec.
  rewrite decide_False by lia.
  rewrite decide_False by (intros [? _]; lia).
  rewrite gather_tasks.
  eexists. split; [reflexivity|]. simpl.
  rewrite collect_new_documents_spec, combine_results_spec.
  by repeat split.
Qed.

(** ** The merge *)

Lemma successes_of_outcomes (O : list (option Result)) id :
  id ∈ (mjoin (filter_results O)).*1 ↔ ∃ result, Some result ∈ O ∧ id ∈ result.*1.
Proof.
  unfold filter_results. split.
  - intros Hin. apply list_elem_of_fmap in Hin as (entry & -> & Hin).
    apply list_elem_of_join in Hin as (result & Hin & Hres).
    apply list_elem_of_omap in Hres as (o & Ho & Heq).
    unfold Datatypes.id in Heq. subst o.
    exists result. split; [done|]. apply list_elem_of_fmap. by exists entry.
  - intros (result & Hres & Hin).
    apply list_elem_of_fmap in Hin as (entry & -> & Hin).
    apply list_elem_of_fmap. exists entry. split; [done|].
    apply list_elem_of_join. exists result. split; [done|].
    apply list_elem_of_omap. by exists (Some result).
Qed.

Lemma merge_outcomes_spec (E : store) (O : list (option Result)) :
  foldl write_entry E (mjoin (filter_results O)) = foldl merge_outcome E O.
Proof.
  revert E. induction O as [|[result|] O IH]; intros E; [done|..].
  - unfold filter_results. csimpl. rewrite foldl_app. apply IH.
  - apply IH.
Qed.

(** C3: the merge of lines 166-174 starts from the existing store and
    goes through the outcomes in order; each success of the list writes its
    entry, inserting or overwriting, and a failure changes nothing.  So an
    identifier that no success of the list carries keeps the lookup of the
    existing store (its entry, or its absence); an identifier that a success
    carries holds the dump of the last success of the list that carries it;
    and the identifiers of the merged store are those of the existing store
    and those of the successes of the list, all of them. *)
Theorem merge_non_destructive (E : store) (O : list (option Result)) :
  let merged := combine_results E (filter_results O) in
  merged = foldl merge_outcome E O
  ∧ (∀ O1 O2, O = O1 ++ None :: O2 →
       merged = combine_results E (filter_results (O1 ++ O2)))
  ∧ (∀ id, (∀ result, Some result ∈ O → id ∉ result.*1) → merged !! id = E !! id)
  ∧ (∀ O1 result O2 before after id sections,
       O = O1 ++ Some result :: O2 →
       result = before ++ (id, sections) :: after →
       id ∉ after.*1 →
       (∀ later, Some later ∈ O2 → id ∉ later.*1) →
       merged !! id = Some (Sections_model_dump sections))
  ∧ (∀ id, id ∈ dom merged ↔
       id ∈ dom E ∨ ∃ result, Some result ∈ O ∧ id ∈ result.*1).
Proof.
  intros merged. subst merged.
  rewrite combine_results_spec. split; [|split; [|split; [|split]]].
  - apply merge_outcomes_spec.
  - intros O1 O2 ->. rewrite combine_results_spec.
    unfold filter_results. by rewrite !omap_app.
  - intros id Hnone. apply write_entries_other.
    intros Hin. apply successes_of_outcomes in Hin as (result & Hres & Hin).
    by apply (Hnone result).
  - intros O1 result O2 before after id sections -> -> Hafter Hlater.
    unfold filter_results. rewrite omap_app. csimpl.
    rewrite join_app. csimpl. rewrite <-!app_assoc, app_assoc. simpl.
    apply write_entries_last.
    rewrite fmap_app. apply not_elem_of_app. split; [done|].
    intros Hin. apply successes_of_outcomes in Hin as (later & Hres & Hin).
    by apply (Hlater later).
  - intros id. rewrite write_entries_dom, elem_of_union, elem_of_list_to_set.
    by rewrite successes_of_outcomes.
Qed.

(** ** Resume *)

(** C4: an identifier that the output file holds when the run starts is not
    among the pending documents, no task is created for it (the tasks are
    the pending documents, one each) and no result is written under it, and
    the final store holds its entry as loaded - for every input collection. *)
Theorem present_entries_untouched content items (existing : store) N llm :
  iterate content = Returned items →
  0 < N →
  ∃ b, process_documents_concurrently (Some content) (Some existing) N llm
       = Some (Returned b) ∧
    length (task_worlds b) = length (all_documents b) ∧
    length (gathered b) = length (all_documents b) ∧
    ∀ id v, existing !! id = Some v →
      (id ∉ doc_id <$> all_documents b) ∧
      (id ∉ (mjoin (results b)).*1) ∧
      headings_data b !! id = Some v.
Proof.
  intros Hit HN.
  destruct (batch_spec content items (Some existing) N llm Hit HN)
    as (b & Hrun & _ & _ & Hdocs & Hg & Hres & Hh & _ & _ & Hw).
  exists b. split; [done|].
  split; [by rewrite Hw, length_fmap, length_imap|].
  split; [by rewrite Hg, length_imap|].
  intros id v Hid.
  assert (id ∉ doc_id <$> all_documents b) as Hnot.
  { rewrite Hdocs. intros Hin.
    apply list_elem_of_fmap in Hin as (doc & -> & Hin).
    apply list_elem_of_filter in Hin as [Hnone _]. simpl in Hnone. congruence. }
  assert (id ∉ (mjoin (results b)).*1) as Hnot'.
  { rewrite Hres, Hg. intros Hin. by apply Hnot, successes_ids with llm. }
  repeat split; [done..|].
  rewrite Hh. simpl. by rewrite write_entries_other.
Qed.

(** ** The pending documents *)

Lemma filter_ids_NoDup (P : TextDocument → Prop) `{!∀ d, Decision (P d)} docs :
  NoDup (doc_id <$> docs) → NoDup (doc_id <$> filter P docs).
Proof.
  intros Hnd. eapply sublist_NoDup; [exact Hnd|].
  apply fmap_sublist, sublist_filter.
Qed.

(** C9, as the function has it: the pending documents are all the loaded
    documents that have no entry in the existing store, in the order of the
    input, each as often as the input has it; their identifiers are distinct
    when those of the loaded documents are. *)
Theorem pending_documents_spec content items output_file N llm :
  iterate content = Returned items →
  0 < N →
  ∃ b, process_documents_concurrently (Some content) output_file N llm
       = Some (Returned b) ∧
    all_documents b = filter (λ doc, default ∅ output_file !! doc_id doc = None)
                        (mjoin (documents <$> publications b)) ∧
    (NoDup (doc_id <$> mjoin (documents <$> publications b)) →
     NoDup (doc_id <$> all_documents b)).
Proof.
  intros Hit HN.
  destruct (batch_spec content items output_file N llm Hit HN)
    as (b & Hrun & _ & _ & Hdocs & _).
  exists b. repeat split; [done..|].
  rewrite Hdocs. apply filter_ids_NoDup.
Qed.

(** ** Loading *)

Lemma omap_all_valid {A B} (f : A → option B) l :
  Forall (λ x, is_Some (f x)) l →
  length (omap f l) = length l ∧ filter (λ x, f x = None) l = [].
Proof.
  induction 1 as [|x l [y Hy] _ [IH1 IH2]]; [done|].
  rewrite filter_cons, decide_False by congruence.
  split; [|done]. csimpl. rewrite Hy. simpl. by rewrite IH1.
Qed.

(** C8, as the function has it: the unit of validation is the entry of the
    input array, one publication with all its documents, and a publication
    with a malformed document is a malformed entry.  When one entry of the
    array does not validate and the others do, the run completes, exactly
    that entry is logged and left out, every other entry is loaded, and
    every document of a loaded entry that has no stored result is pending
    and gets its task and its outcome. *)
Theorem malformed_publication_dropped before bad after output_file N llm :
  TextPublication_model_validate bad = None →
  Forall (λ j, is_Some (TextPublication_model_validate j)) (before ++ after) →
  0 < N →
  ∃ b, process_documents_concurrently (Some (JArr (before ++ bad :: after)))
         output_file N llm
       = Some (Returned b) ∧
    publications b = omap TextPublication_model_validate (before ++ after) ∧
    length (publications b) = length (before ++ after) ∧
    parse_log b = [ErrorParsingPublication bad] ∧
    ∀ j pub doc,
      j ∈ before ++ after →
      TextPublication_model_validate j = Some pub →
      doc ∈ documents pub →
      default ∅ output_file !! doc_id doc = None →
      pub ∈ publications b ∧
      ∃ i, all_documents b !! i = Some doc ∧
           gathered b !! i = Some (task_value llm i doc).
Proof.
  intros Hbad Hvalid HN.
  destruct (batch_spec (JArr (before ++ bad :: after)) _ output_file N llm
              eq_refl HN)
    as (b & Hrun & Hpubs & Hlog & Hdocs & Hg & _).
  assert (publications b = omap TextPublication_model_validate (before ++ after))
    as Hpubs'.
  { rewrite Hpubs, !omap_app. simpl. by rewrite Hbad. }
  pose proof (omap_all_valid _ _ Hvalid) as [Hlen Hnone].
  apply Forall_app in Hvalid as [Hv1 Hv2].
  pose proof (omap_all_valid _ _ Hv1) as [_ Hn1].
  pose proof (omap_all_valid _ _ Hv2) as [_ Hn2].
  exists b. repeat split; [done|done|by rewrite Hpubs'|..].
  - rewrite Hlog, filter_app, filter_cons, decide_True by done.
    by rewrite Hn1, Hn2.
  - rewrite Hpubs'. apply list_elem_of_omap. by exists j.
  - assert (doc ∈ all_documents b) as Hin.
    { rewrite Hdocs. apply list_elem_of_filter. split; [done|].
      apply list_elem_of_join. exists (documents pub). split; [done|].
      apply list_elem_of_fmap. exists pub. split; [done|].
      rewrite Hpubs'. apply list_elem_of_omap. by exists j. }
    apply list_elem_of_lookup_1 in Hin as [i Hi].
    exists i. split; [done|]. by rewrite Hg, list_lookup_imap, Hi.
Qed.

(** ** Failures *)

Lemma NoDup_ids_lookup docs i j (A B : TextDocument) :
  NoDup (doc_id <$> docs) →
  docs !! i = Some A → docs !! j = Some B → doc_id A = doc_id B → i = j ∧ A = B.
Proof.
  intros Hnd Hi Hj Heq.
  assert (i = j) as ->.
  { eapply NoDup_lookup; [exact Hnd|..].
    - by rewrite list_lookup_fmap, Hi.
    - rewrite list_lookup_fmap, Hj. simpl. by rewrite Heq. }
  split; [done|congruence].
Qed.

(** C6, as the function has it: after the store is written, the reported
    identifiers are those of the pending documents that the final store
    does not hold, in order.  When the pending documents have distinct
    identifiers, a pending document whose outcome is a failure has no entry
    in the final store and is reported, one whose outcome is a success has
    its result in the final store and is not reported, and the report lists
    exactly the failures. *)
Theorem partial_failure_isolation content items output_file N llm :
  iterate content = Returned items →
  0 < N →
  ∃ b, process_documents_concurrently (Some content) output_file N llm
       = Some (Returned b) ∧
    failed_docs b
    = doc_id <$> filter (λ doc, headings_data b !! doc_id doc = None) (all_documents b) ∧
    report_log b = (if decide (failed_docs b = []) then []
                    else [ErrorFailedDocs (failed_docs b)]) ∧
    (NoDup (doc_id <$> all_documents b) →
       (∀ i A, all_documents b !! i = Some A → gathered b !! i = Some None →
          headings_data b !! doc_id A = None ∧ doc_id A ∈ failed_docs b) ∧
       (∀ j B sections, all_documents b !! j = Some B →
          gathered b !! j = Some (Some [(doc_id B, sections)]) →
          headings_data b !! doc_id B = Some (Sections_model_dump sections) ∧
          doc_id B ∉ failed_docs b) ∧
       (∀ id, id ∈ failed_docs b ↔
          ∃ i A, all_documents b !! i = Some A ∧ doc_id A = id ∧
                 gathered b !! i = Some None)).
Proof.
  intros Hit HN.
  destruct (batch_spec content items output_file N llm Hit HN)
    as (b & Hrun & _ & _ & Hdocs & Hg & Hres & Hh & Hf & Hr & _).
  exists b. split; [done|]. split; [done|]. split; [done|].
  intros Hnd.
  pose proof (successes_NoDup llm _ Hnd) as Hsnd.
  rewrite <-Hg, <-Hres in Hsnd.
  assert (∀ i A, all_documents b !! i = Some A → gathered b !! i = Some None →
            headings_data b !! doc_id A = None) as HA.
  { intros i A Hi Hnone. rewrite Hh, write_entries_other.
    - apply list_elem_of_lookup_2 in Hi. rewrite Hdocs in Hi.
      by apply list_elem_of_filter in Hi as [? _].
    - intros Hin. apply list_elem_of_fmap in Hin as ([id s] & Heq & Hin).
      simpl in Heq. subst id. rewrite Hres, Hg in Hin.
      apply successes_elem in Hin as (j & B & Hj & Heq & Hv).
      destruct (NoDup_ids_lookup _ _ _ _ _ Hnd Hi Hj Heq) as [-> ->].
      rewrite Hg, list_lookup_imap, Hj in Hnone. simpl in Hnone. congruence. }
  assert (∀ j B sections, all_documents b !! j = Some B →
            gathered b !! j = Some (Some [(doc_id B, sections)]) →
            headings_data b !! doc_id B = Some (Sections_model_dump sections)) as HB.
  { intros j B sections Hj Hsome. rewrite Hh.
    apply write_entries_NoDup; [done|].
    rewrite Hres, Hg. apply successes_elem. exists j, B.
    rewrite Hg, list_lookup_imap, Hj in Hsome. simpl in Hsome.
    split; [done|]. split; [done|]. congruence. }
  assert (∀ doc, doc ∈ all_documents b → headings_data b !! doc_id doc = None →
            doc_id doc ∈ failed_docs b) as Hfailed.
  { intros doc Hin Hnone. rewrite Hf. unfold find_failed_docs.
    apply list_elem_of_fmap. exists doc. split; [done|].
    by apply list_elem_of_filter. }
  split; [|split].
  - intros i A Hi Hnone. split; [by eapply HA|].
    apply Hfailed; [by eapply list_elem_of_lookup_2|by eapply HA].
  - intros j B sections Hj Hsome. split; [by eapply HB|].
    rewrite Hf. unfold find_failed_docs. intros Hin.
    apply list_elem_of_fmap in Hin as (doc & Heq & Hin).
    apply list_elem_of_filter in Hin as [Hnone _]. simpl in Hnone.
    rewrite <-Heq in Hnone. erewrite HB in Hnone; done.
  - intros id. split.
    + rewrite Hf. unfold find_failed_docs. intros Hin.
      apply list_elem_of_fmap in Hin as (doc & -> & Hin).
      apply list_elem_of_filter in Hin as [Hnone Hin]. simpl in Hnone.
      apply list_elem_of_lookup_1 in Hin as [i Hi].
      exists i, doc. split; [done|]. split; [done|].
      destruct (task_value llm i doc) as [result|] eqn:Hv.
      * destruct (task_value_Some _ _ _ _ Hv) as [s ->].
        erewrite (HB i doc s) in Hnone; [done|done|].
        by rewrite Hg, list_lookup_imap, Hi, <-Hv.
      * by rewrite Hg, list_lookup_imap, Hi, <-Hv.
    + intros (i & A & Hi & <- & Hnone).
      apply Hfailed; [by eapply list_elem_of_lookup_2|by eapply HA].
Qed.

(** ** Running the batch again *)

Lemma write_entries_None (E : store) entries id :
  foldl write_entry E entries !! id = None → E !! id = None ∧ id ∉ entries.*1.
Proof.
  intros Hnone. apply not_elem_of_dom in Hnone.
  rewrite write_entries_dom in Hnone.
  apply not_elem_of_union in Hnone as [HE Hl].
  split; [by apply not_elem_of_dom|]. by rewrite elem_of_list_to_set in Hl.
Qed.

Lemma filter_results_failures (gathered : list (option Result)) :
  (∀ o, o ∈ gathered → o = None) → filter_results gathered = [].
Proof.
  unfold filter_results. induction gathered as [|o gathered IH]; intros Hall; [done|].
  rewrite (Hall o) by left. simpl. apply IH. intros o' Ho'. apply Hall. by right.
Qed.

(** The next run finds pending exactly what this run reports as failed. *)
Lemma next_pending (E : store) entries (docs : list TextDocument) :
  filter (λ doc : TextDocument, foldl write_entry E entries !! doc_id doc = None) docs
  = filter (λ doc, foldl write_entry E entries !! doc_id doc = None)
      (filter (λ doc, E !! doc_id doc = None) docs).
Proof.
  symmetry. apply list_filter_filter_l.
  intros doc Hnone. by apply write_entries_None in Hnone as [? _].
Qed.

(** C7: with the input unchanged and a collaborator that answers a given
    document the same way every time, a second run over the output of the
    first leaves the store as the first run wrote it.  What the second run
    processes is what the first reported as failed: nothing, when the first
    run had no failure. *)
Theorem idempotent_resume content items output_file N
    (f : TextDocument → completion) llm1 llm2 :
  iterate content = Returned items →
  0 < N →
  (∀ i doc k, llm1 i doc k = f doc) →
  (∀ i doc k, llm2 i doc k = f doc) →
  ∃ b1 b2,
    process_documents_concurrently (Some content) output_file N llm1
    = Some (Returned b1) ∧
    process_documents_concurrently (Some content)
      (output_after output_file
         (process_documents_concurrently (Some content) output_file N llm1))
      N llm2
    = Some (Returned b2) ∧
    headings_data b2 = headings_data b1 ∧
    doc_id <$> all_documents b2 = failed_docs b1 ∧
    (failed_docs b1 = [] → all_documents b2 = [] ∧ gathered b2 = []).
Proof.
  intros Hit HN Hllm1 Hllm2.
  destruct (batch_spec content items output_file N llm1 Hit HN)
    as (b1 & Hrun1 & Hpubs1 & _ & Hdocs1 & Hg1 & Hres1 & Hh1 & Hf1 & _).
  rewrite Hrun1. simpl.
  destruct (batch_spec content items (Some (headings_data b1)) N llm2 Hit HN)
    as (b2 & Hrun2 & Hpubs2 & _ & Hdocs2 & Hg2 & Hres2 & Hh2 & _).
  simpl in Hdocs2, Hh2.
  exists b1, b2. split; [done|]. split; [done|].
  assert (all_documents b2
          = filter (λ doc, headings_data b1 !! doc_id doc = None) (all_documents b1))
    as Hpending.
  { rewrite Hdocs2, Hdocs1, Hpubs2, <-Hpubs1, Hh1. apply next_pending. }
  assert (doc_id <$> all_documents b2 = failed_docs b1) as Hfailed.
  { by rewrite Hpending, Hf1. }
  split; [|split; [done|]].
  - rewrite Hh2, Hres2, filter_results_failures; [done|].
    intros o Ho. rewrite Hg2 in Ho.
    apply list_elem_of_lookup_1 in Ho as [i Hi].
    rewrite list_lookup_imap in Hi.
    destruct (all_documents b2 !! i) as [doc|] eqn:Hdoc; [|done].
    simpl in Hi. injection Hi as <-.
    destruct (task_value llm2 i doc) as [result|] eqn:Hv; [exfalso|done].
    destruct (task_value_Some _ _ _ _ Hv) as [s ->].
    apply list_elem_of_lookup_2 in Hdoc. rewrite Hpending in Hdoc.
    apply list_elem_of_filter in Hdoc as [Hnone Hdoc]. simpl in Hnone.
    rewrite Hh1 in Hnone. apply write_entries_None in Hnone as [_ Hnot].
    apply Hnot. apply list_elem_of_fmap. exists (doc_id doc, s). split; [done|].
    rewrite Hres1, Hg1. apply successes_elem.
    apply list_elem_of_lookup_1 in Hdoc as [i1 Hi1].
    exists i1, doc. split; [done|]. split; [done|].
    rewrite <-Hv. unfold task_value. by rewrite Hllm1, Hllm2.
  - intros Hnil. rewrite Hnil in Hfailed. apply fmap_nil_inv in Hfailed.
    split; [done|]. by rewrite Hg2, Hfailed.
Qed.

(** ** The semaphore *)

Lemma in_flight_insert (states : list task_state) i t t' :
  states !! i = Some t →
  (length (filter (λ t, is_holding t) (<[i := t']> states)) + holding_weight t
   = length (filter (λ t, is_holding t) states) + holding_weight t')%nat.
Proof.
  revert i. induction states as [|t0 states IH]; intros i Hi; [done|].
  destruct i as [|i]; simpl in *.
  - injection Hi as ->. rewrite !filter_cons. unfold holding_weight.
    destruct (is_holding t), (is_holding t'); simpl; lia.
  - specialize (IH i Hi). rewrite !filter_cons.
    destruct (decide (is_holding t0)); simpl; lia.
Qed.

Lemma in_flight_init value tasks : in_flight (pool_init value tasks) = 0%nat.
Proof.
  unfold in_flight, pool_init. simpl.
  induction tasks as [|n IH]; [done|]. simpl.
  rewrite filter_cons_False by (simpl; intros []). exact IH.
Qed.

Lemma pool_step_inv capacity outcomes ev p p' :
  pool_inv capacity p → pool_step outcomes ev p = Some p' → pool_inv capacity p'.
Proof.
  intros [Hpos Hsum] Hstep. unfold pool_step in Hstep.
  destruct ev as [i|i]; destruct (task_states p !! i) as [[| |o]|] eqn:Hi;
    try done.
  - destruct (decide (0 < sem_value p)); [|done]. injection Hstep as <-.
    pose proof (in_flight_insert _ _ _ Holding Hi) as Hcount.
    unfold pool_inv, in_flight, holding_weight in *. simpl in *. lia.
  - destruct (outcomes !! i) as [o|]; [|done]. injection Hstep as <-.
    pose proof (in_flight_insert _ _ _ (Exited o) Hi) as Hcount.
    unfold pool_inv, in_flight, holding_weight in *. simpl in *. lia.
Qed.

Lemma pool_run_inv capacity outcomes schedule p p' :
  pool_inv capacity p → pool_run outcomes schedule p = Some p' → pool_inv capacity p'.
Proof.
  revert p. induction schedule as [|ev schedule IH]; intros p Hinv Hrun; simpl in Hrun.
  - by injection Hrun as <-.
  - destruct (pool_step outcomes ev p) as [p1|] eqn:Hstep; [|done].
    simpl in Hrun. eapply IH; [|done]. by eapply pool_step_inv.
Qed.


(** A semaphore of value 0 admits nobody: no event can happen, and [gather]
    waits for ever when there is a task. *)
Lemma pool_init_zero_stuck outcomes ev tasks :
  pool_step outcomes ev (pool_init 0 tasks) = None.
Proof.
  unfold pool_step, pool_init. simpl.
  destruct ev as [i|i]; destruct (replicate tasks Waiting !! i) as [t|] eqn:Hi;
    try done; apply lookup_replicate in Hi as [-> _]; done.
Qed.

(** A task that has left its block has the outcome of its body. *)
Lemma pool_exited_outcome N outcomes tasks schedule p i o :
  pool_run outcomes schedule (pool_init N tasks) = Some p →
  task_states p !! i = Some (Exited o) → outcomes !! i = Some o.
Proof.
  assert (∀ i o, task_states (pool_init N tasks) !! i = Some (Exited o) →
                 outcomes !! i = Some o) as Hinit.
  { intros i' o' Hi'. simpl in Hi'. by apply lookup_replicate in Hi' as [? _]. }
  revert Hinit. generalize (pool_init N tasks). clear.
  intros p0 Hinv Hrun. revert i o.
  revert p0 Hinv Hrun.
  induction schedule as [|ev schedule IH]; intros p0 Hinv Hrun; simpl in Hrun.
  - by injection Hrun as <-.
  - destruct (pool_step outcomes ev p0) as [p1|] eqn:Hstep; [|done].
    simpl in Hrun. apply (IH p1); [|done].
    intros i o Hi. unfold pool_step in Hstep.
    destruct ev as [j|j]; destruct (task_states p0 !! j) as [[| |o']|] eqn:Hj;
      try done.
    + destruct (decide (0 < sem_value p0)); [|done]. injection Hstep as <-.
      simpl in Hi. destruct (decide (i = j)) as [->|Hne].
      * rewrite list_lookup_insert_eq in Hi by (by eapply lookup_lt_Some). done.
      * rewrite list_lookup_insert_ne in Hi by done. by apply Hinv.
    + destruct (outcomes !! j) as [o1|] eqn:Ho; [|done]. injection Hstep as <-.
      simpl in Hi. destruct (decide (i = j)) as [->|Hne].
      * rewrite list_lookup_insert_eq in Hi by (by eapply lookup_lt_Some).
        congruence.
      * rewrite list_lookup_insert_ne in Hi by done. by apply Hinv.
Qed.

Lemma sequential_schedule_run N (finished rest : list (outcome (option Result))) :
  0 < N →
  pool_run (finished ++ rest) (sequential_schedule (length finished) (length rest))
    (mkPool N ((Exited <$> finished) ++ replicate (length rest) Waiting))
  = Some (mkPool N (Exited <$> finished ++ rest)).
Proof.
  intros HN. revert finished.
  induction rest as [|o rest IH]; intros finished; simpl.
  - by rewrite !app_nil_r.
  - assert (length (Exited <$> finished) = length finished) as Hlen
      by apply length_fmap.
    assert (∀ t (waiting : list task_state) t',
              <[length finished := t']> ((Exited <$> finished) ++ t :: waiting)
              = (Exited <$> finished) ++ t' :: waiting) as Hins.
    { intros t waiting t'. rewrite insert_app_r_alt by lia.
      by rewrite Hlen, Nat.sub_diag. }
    rewrite (list_lookup_middle (Exited <$> finished)) by done.
    rewrite decide_True by done. simpl.
    rewrite Hins, (list_lookup_middle (Exited <$> finished)) by done.
    rewrite (list_lookup_middle finished) by done. simpl.
    rewrite Hins. replace (N - 1 + 1) with N by lia.
    specialize (IH (finished ++ [o])).
    rewrite length_app, Nat.add_1_r, fmap_app, <-!app_assoc in IH. simpl in IH.
    exact IH.
Qed.

(** With a positive capacity the tasks can all run, and the outcomes that
    they leave are the values that [gather] collects. *)
Lemma pool_completes N llm docs :
  0 < N →
  pool_run (fst <$> imap (run_task llm) docs)
    (sequential_schedule 0 (length docs)) (pool_init N (length docs))
  = Some (mkPool N (Exited ∘ Returned <$> imap (task_value llm) docs)).
Proof.
  intros HN.
  pose proof (sequential_schedule_run N [] (fst <$> imap (run_task llm) docs) HN)
    as Hrun.
  rewrite length_fmap, length_imap in Hrun. simpl in Hrun.
  unfold pool_init. rewrite Hrun. do 2 f_equal.
  rewrite list_fmap_compose. f_equal.
  rewrite !fmap_imap. apply imap_ext. intros i doc _. simpl. apply run_task_spec.
Qed.

(** Every task of a completed run has made one call and has not waited. *)
Lemma batch_one_call_per_task content items output_file N llm :
  iterate content = Returned items →
  0 < N →
  ∃ b, process_documents_concurrently (Some content) output_file N llm
       = Some (Returned b) ∧
       Forall (λ w, calls w = 1%nat ∧ sleeps w = []) (task_worlds b).
Proof.
  intros Hit HN.
  destruct (batch_spec content items output_file N llm Hit HN)
    as (b & Hrun & _ & _ & _ & _ & _ & _ & _ & _ & Hw).
  exists b. split; [done|]. rewrite Hw.
  apply Forall_forall. intros w Hin.
  apply list_elem_of_fmap in Hin as ([o w'] & -> & Hin).
  apply list_elem_of_lookup_1 in Hin as [i Hi].
  rewrite list_lookup_imap in Hi.
  destruct (all_documents b !! i) as [doc|]; [|done].
  simpl in Hi. injection Hi as Hi. unfold run_task in Hi.
  pose proof (process_text_calls (llm i doc) doc initial_world) as [Hc Hs].
  rewrite Hi in Hc, Hs. done.
Qed.

(** * Further properties *)

(** ** [process_text], the success path *)

(** X1: [process_text] returns a result exactly when the first answer of
    the collaborator is a [ModelResponse] whose first choice validates; the
    result is then the one-item dict of the document's identifier and the
    validated sections, and nothing is logged.  When it returns [None] it
    has logged exactly one error record.  Choices after the first and
    answers after the first are never looked at. *)
Theorem process_text_outcome llm doc w :
  (∀ result,
     (process_text llm doc w).1 = Returned (Some result) ↔
     ∃ choice rest sections,
       llm (calls w) = Responds (ModelResponse (choice :: rest)) ∧
       Sections_model_validate_json choice = Some sections ∧
       result = [(doc_id doc, sections)])
  ∧ (∀ result, (process_text llm doc w).1 = Returned (Some result) →
       log (process_text llm doc w).2 = log w)
  ∧ ((process_text llm doc w).1 = Returned None →
       ∃ e, log (process_text llm doc w).2 = log w ++ [ErrorTextProcessing e])
  ∧ (∀ llm', llm' (calls w) = llm (calls w) →
       process_text llm' doc w = process_text llm doc w).
Proof.
  rewrite process_text_spec, process_text_fn_spec.
  split; [|split; [|split]].
  - intros result. unfold classify.
    destruct (llm (calls w)) as [e|[|[|choice rest]]]; simpl;
      try (split; [done|by intros (? & ? & ? & ? & _)]).
    destruct (Sections_model_validate_json choice) as [sections|] eqn:Hv; simpl.
    + split.
      * intros [= <-]. by exists choice, rest, sections.
      * intros (c & r & s & [= <- <-] & Hs & ->). congruence.
    + split; [done|]. intros (c & r & s & [= <- <-] & Hs & _). congruence.
  - intros result. by destruct (classify _).
  - destruct (classify _) as [e|s]; [|done]. intros _. by exists e.
  - intros llm' Heq. by rewrite process_text_spec, process_text_fn_spec, Heq.
Qed.

(** ** The decorator of line 63 *)

(** X2: every wait that [wait_exponential] computes lies between its
    [min] and its [max], for every multiplier and every attempt number; for
    the configuration of line 63 that is between 4 and 10. *)
Theorem wait_exponential_bounds (multiplier min max : Z) (attempt_number : nat) :
  (0 ≤ min)%Z → (min ≤ max)%Z →
  (min ≤ wait_exponential multiplier min max attempt_number ≤ max)%Z.
Proof. unfold wait_exponential. lia. Qed.

Lemma retry_loop_raises (wait : nat → Z) llm k left attempt w r :
  (∀ i, (i < k)%nat → ∃ e, llm (calls w + i)%nat = Raises e) →
  llm (calls w + k)%nat = Responds r →
  (k ≤ left)%nat →
  retry_loop wait (acompletion llm) left attempt w
  = (Returned r,
     mkWorld (calls w + S k) (sleeps w ++ (wait <$> seq attempt k)) (log w)).
Proof.
  revert left attempt w.
  induction k as [|k IH]; intros left attempt w Hraise Hret Hle.
  - rewrite Nat.add_0_r in Hret. simpl. rewrite app_nil_r, Nat.add_1_r.
    apply retry_loop_returned. unfold acompletion. by rewrite Hret.
  - destruct left as [|left]; [lia|].
    destruct (Hraise 0%nat ltac:(lia)) as [e He]. rewrite Nat.add_0_r in He.
    simpl. unfold acompletion at 1. rewrite He. unfold sleep.
    rewrite IH; simpl.
    + f_equal. f_equal; [lia|]. by rewrite <-app_assoc.
    + intros i Hi. destruct (Hraise (S i) ltac:(lia)) as [e' He'].
      exists e'. by rewrite <-He', Nat.add_succ_r.
    + by rewrite <-Hret, Nat.add_succ_r.
    + lia.
Qed.

Lemma retry_loop_exhausted (wait : nat → Z) llm left attempt w :
  (∀ i, (i ≤ left)%nat → ∃ e, llm (calls w + i)%nat = Raises e) →
  retry_loop wait (acompletion llm) left attempt w
  = (Raised RetryError,
     mkWorld (calls w + S left) (sleeps w ++ (wait <$> seq attempt left)) (log w)).
Proof.
  revert attempt w.
  induction left as [|left IH]; intros attempt w Hraise;
    destruct (Hraise 0%nat ltac:(lia)) as [e He]; rewrite Nat.add_0_r in He;
    simpl; unfold acompletion at 1; rewrite He.
  - by rewrite app_nil_r, Nat.add_1_r.
  - unfold sleep. rewrite IH; simpl.
    + f_equal. f_equal; [lia|]. by rewrite <-app_assoc.
    + intros i Hi. destruct (Hraise (S i) ltac:(lia)) as [e' He'].
      exists e'. by rewrite <-He', Nat.add_succ_r.
Qed.

(** X3: what the decorator does with a call that does raise.  When the
    call raises [k] times and then returns, with [k] below the maximum, the
    decorator returns that value after [k + 1] calls and [k] waits; when the
    call raises at each of the [max] attempts, the decorator raises
    [RetryError] after [max] calls and [max - 1] waits.  The waits are those
    of attempts 1, 2, ... in order. *)
Theorem retry_attempts (max_attempt_number : nat) (wait : nat → Z) llm :
  (0 < max_attempt_number)%nat →
  (∀ k r, (k < max_attempt_number)%nat →
     (∀ i, (i < k)%nat → ∃ e, llm i = Raises e) →
     llm k = Responds r →
     retry max_attempt_number wait (acompletion llm) initial_world
     = (Returned r, mkWorld (S k) (wait <$> seq 1 k) []))
  ∧ ((∀ i, (i < max_attempt_number)%nat → ∃ e, llm i = Raises e) →
     retry max_attempt_number wait (acompletion llm) initial_world
     = (Raised RetryError,
        mkWorld max_attempt_number (wait <$> seq 1 (max_attempt_number - 1)) [])).
Proof.
  intros Hmax. unfold retry. split.
  - intros k r Hk Hraise Hret.
    rewrite (retry_loop_raises wait llm k _ 1 initial_world r); [done|done|done|lia].
  - intros Hraise.
    rewrite (retry_loop_exhausted wait llm); simpl.
    + do 2 f_equal. lia.
    + intros i Hi. apply Hraise. lia.
Qed.

(** ** Loading and validating *)

Lemma omap_filter_length {A B} (f : A → option B) (l : list A) :
  (length (omap f l) + length (filter (λ x, f x = None) l) = length l)%nat.
Proof.
  induction l as [|x l IH]; [done|].
  rewrite filter_cons. csimpl.
  destruct (decide (f x = None)) as [Hx|Hx].
  - rewrite Hx. simpl. lia.
  - destruct (f x); [|done]. simpl. lia.
Qed.

(** X4: the load loop accounts for every entry of the collection: an entry
    is either loaded as a publication or logged as an error, never both and
    never neither; the publications keep the order of the input; and
    loading a collection in two parts gives the two loads in a row. *)
Theorem load_publications_accounting (content : list json) :
  (length (load_publications content).1 + length (load_publications content).2
   = length content)%nat
  ∧ (load_publications content).1 = omap TextPublication_model_validate content
  ∧ (∀ part1 part2, content = part1 ++ part2 →
       load_publications content
       = ((load_publications part1).1 ++ (load_publications part2).1,
          (load_publications part1).2 ++ (load_publications part2).2)).
Proof.
  rewrite load_publications_spec. simpl. split; [|split; [done|]].
  - rewrite length_fmap. apply omap_filter_length.
  - intros part1 part2 ->. rewrite !load_publications_spec. simpl.
    by rewrite omap_app, filter_app, fmap_app.
Qed.

(** X5: a publication whose identifier is a string and whose documents
    are an array validates exactly when every document of the array
    validates: one malformed document makes the whole publication invalid,
    and the publication then carries the validated documents in order. *)
Theorem publication_valid_iff members p docs :
  dict_get "pub_id" members = Some (JStr p) →
  dict_get "documents" members = Some (JArr docs) →
  (TextPublication_model_validate (JObj members) = None ↔
   ∃ d, d ∈ docs ∧ TextDocument_model_validate d = None)
  ∧ (∀ pub, TextPublication_model_validate (JObj members) = Some pub →
       pub_id pub = p ∧
       Forall2 (λ d doc, TextDocument_model_validate d = Some doc) docs (documents pub)).
Proof.
  intros Hp Hd. unfold TextPublication_model_validate, required, with_default.
  rewrite Hp, Hd. simpl.
  destruct (mapM TextDocument_model_validate docs) as [ds|] eqn:Hm; simpl.
  - split.
    + split; [done|]. intros (d & Hin & Hnone).
      apply mapM_Some_1 in Hm.
      apply list_elem_of_lookup_1 in Hin as [i Hi].
      destruct (Forall2_lookup_l _ _ _ _ _ Hm Hi) as (doc & _ & Hdoc). congruence.
    + intros pub [= <-]. simpl. split; [done|]. by apply mapM_Some_1.
  - split; [|done]. split; [|done]. intros _.
    apply mapM_None_1, Exists_exists in Hm. exact Hm.
Qed.

(** X6: dumping and validating are inverse on the side of the models:
    when the validator of integer fields takes a JSON integer as it is, the
    dump of any [Sections] validates back to the same [Sections].  Hence
    every entry that a run writes can be read back, also one whose range
    has its start after its end: validation does not compare the two. *)
Theorem dump_validate_roundtrip (s : Sections) :
  (∀ n, int_validator JsonMode (JInt n) = Some n) →
  Sections_model_validate (Sections_model_dump s) = Some s.
Proof.
  intros Hint.
  assert (∀ o, optional_range (dump_optional o) = Some o) as Hopt.
  { intros [[a b]|]; [|done]. unfold dump_optional, optional_range. simpl.
    unfold SectionPageRange_model_validate, required. simpl.
    by rewrite !Hint. }
  destruct s as [a b c d e f g h].
  unfold Sections_model_validate, Sections_model_dump, required. simpl.
  by rewrite !Hopt.
Qed.

Lemma load_publications_strings (items : list json) :
  Forall (λ j, ∃ s, j = JStr s) items →
  load_publications items = ([], ErrorParsingPublication <$> items).
Proof.
  intros Hstr. rewrite load_publications_spec.
  assert (omap TextPublication_model_validate items = [] ∧
          filter (λ j, TextPublication_model_validate j = None) items = items)
    as [-> ->]; [|done].
  induction Hstr as [|j items [s ->] _ [IH1 IH2]]; [done|].
  rewrite filter_cons_True by done. rewrite IH2. split; [|done].
  csimpl. by rewrite IH1.
Qed.

Lemma code_points_concat (s : string) :
  foldr String.append EmptyString (code_points s) = s.
Proof.
  induction s as [|c rest IH]; [done|]. simpl.
  destruct (code_points rest) as [|first others]; simpl in *.
  - by rewrite <-IH.
  - destruct (starts_with_continuation rest); simpl; by rewrite <-IH.
Qed.

(** X7: an input that is a JSON object or a JSON string instead of an
    array is not an error for the function: the loop runs over the keys of
    the object, or over the characters of the string (one entry for each
    character, whatever the number of its bytes), every one of them is
    logged as an entry that does not parse, nothing is pending, and the
    output file is rewritten with the store it had.  This holds for every
    capacity that is not negative. *)
Theorem non_array_input_logged content entries output_file N llm :
  (∃ members, content = JObj members ∧ entries = (λ kv, JStr kv.1) <$> members) ∨
  (∃ s, content = JStr s ∧ entries = JStr <$> code_points s) →
  (0 ≤ N)%Z →
  ∃ b, process_documents_concurrently (Some content) output_file N llm
       = Some (Returned b) ∧
    publications b = [] ∧
    parse_log b = ErrorParsingPublication <$> entries ∧
    all_documents b = [] ∧
    headings_data b = default ∅ output_file ∧
    failed_docs b = [].
Proof.
  intros Hshape HN.
  assert (iterate content = Returned entries ∧
          Forall (λ j, ∃ s, j = JStr s) entries) as [Hit Hstr].
  { destruct Hshape as [(members & -> & ->)|(s & -> & ->)];
      (split; [done|]); apply Forall_fmap, Forall_forall; intros x _;
      by eexists. }
  unfold process_documents_concurrently, Semaphore.
  rewrite Hit, (load_publications_strings _ Hstr).
  rewrite decide_False by lia. simpl.
  rewrite decide_False by (by intros [_ ?]).
  simpl. eexists. split; [reflexivity|]. by simpl.
Qed.

(** ** The capacity *)

Lemma batch_idle content items output_file N llm :
  iterate content = Returned items →
  (0 ≤ N)%Z →
  collect_new_documents (default ∅ output_file)
    (omap TextPublication_model_validate items) = [] →
  ∃ b, process_documents_concurrently (Some content) output_file N llm
       = Some (Returned b) ∧
    all_documents b = [] ∧ gathered b = [] ∧ task_worlds b = [] ∧
    headings_data b = default ∅ output_file ∧
    failed_docs b = [] ∧ report_log b = [].
Proof.
  intros Hit HN Hidle. unfold process_documents_concurrently, Semaphore.
  rewrite Hit, load_publications_spec.
  rewrite decide_False by lia. simpl. rewrite Hidle.
  rewrite decide_False by (by intros [_ ?]).
  simpl. eexists. split; [reflexivity|]. by simpl.
Qed.

(** X8: the capacity decides how the function ends, after the load and
    before any call.  A negative capacity raises [ValueError], also when
    nothing is pending.  With capacity 0 the function completes when nothing
    is pending and never completes when something is: no task can be
    admitted.  With a positive capacity it always completes. *)
Theorem capacity_edge_cases content items output_file N llm :
  iterate content = Returned items →
  ((N < 0)%Z →
     process_documents_concurrently (Some content) output_file N llm
     = Some (Raised (ValueError "Semaphore initial value must be >= 0")))
  ∧ (N = 0 →
     collect_new_documents (default ∅ output_file) (load_publications items).1 ≠ [] →
     process_documents_concurrently (Some content) output_file N llm = None ∧
     ∀ outcomes ev tasks, pool_step outcomes ev (pool_init N tasks) = None)
  ∧ (N = 0 →
     collect_new_documents (default ∅ output_file) (load_publications items).1 = [] →
     ∃ b, process_documents_concurrently (Some content) output_file N llm
          = Some (Returned b) ∧ headings_data b = default ∅ output_file)
  ∧ (0 < N →
     ∃ b, process_documents_concurrently (Some content) output_file N llm
          = Some (Returned b)).
Proof.
  intros Hit. split; [|split; [|split]].
  - intros HN. unfold process_documents_concurrently, Semaphore.
    rewrite Hit. destruct (load_publications items).
    by rewrite decide_True by done.
  - intros -> Hpending. split.
    + unfold process_documents_concurrently, Semaphore. rewrite Hit.
      destruct (load_publications items) as [pubs errs]. simpl in *.
      by rewrite decide_True by done.
    + intros outcomes ev tasks. apply pool_init_zero_stuck.
  - intros -> Hidle. rewrite load_publications_spec in Hidle. simpl in Hidle.
    destruct (batch_idle content items output_file 0 llm Hit ltac:(done) Hidle)
      as (b & Hrun & _ & _ & _ & Hh & _).
    by exists b.
  - intros HN.
    destruct (batch_spec content items output_file N llm Hit HN) as (b & Hrun & _).
    by exists b.
Qed.

(** X9: when every document of the loaded publications already has an
    entry in the store, the function makes no call at all and rewrites the
    store as it was, with nothing reported - for every capacity that is not
    negative, also 0. *)
Theorem nothing_pending_noop content items (existing : store) N llm :
  iterate content = Returned items →
  (0 ≤ N)%Z →
  (∀ pub doc, pub ∈ omap TextPublication_model_validate items →
     doc ∈ documents pub → is_Some (existing !! doc_id doc)) →
  ∃ b, process_documents_concurrently (Some content) (Some existing) N llm
       = Some (Returned b) ∧
    all_documents b = [] ∧ gathered b = [] ∧ task_worlds b = [] ∧
    headings_data b = existing ∧ failed_docs b = [] ∧ report_log b = [].
Proof.
  intros Hit HN Hstored.
  apply (batch_idle content items (Some existing) N llm Hit HN).
  rewrite collect_new_documents_spec. simpl.
  apply elem_of_nil_inv. intros doc Hin.
  apply list_elem_of_filter in Hin as [Hnone Hin].
  apply list_elem_of_join in Hin as (docs & Hin & Hdocs).
  apply list_elem_of_fmap in Hdocs as (pub & -> & Hpub).
  destruct (Hstored pub doc Hpub Hin) as [v Hv]. congruence.
Qed.

(** X10: the script ([main], with the default capacity) on an input file
    that holds JSON and an output file that is absent or holds an object:
    it never hangs; when the input is an array, an object or a string it
    completes, whatever the collaborator answers, and the output file then
    holds the store that the run has computed; when the input is null, a
    boolean or a number it raises [TypeError] and leaves the output file as
    it was. *)
Theorem main_outcome content output_file llm :
  main (Some content) output_file llm ≠ None
  ∧ (match content with
     | JArr _ | JObj _ | JStr _ => True
     | _ => False
     end →
     ∃ b, main (Some content) output_file llm = Some (Returned b) ∧
          output_after output_file (main (Some content) output_file llm)
          = Some (headings_data b))
  ∧ (match content with
     | JArr _ | JObj _ | JStr _ => False
     | _ => True
     end →
     main (Some content) output_file llm = Some (Raised TypeError) ∧
     output_after output_file (main (Some content) output_file llm) = output_file).
Proof.
  unfold main.
  destruct (iterate content) as [items|e] eqn:Hit.
  - destruct (batch_spec content items output_file default_max_concurrency llm
                Hit eq_refl) as (b & Hrun & _).
    rewrite Hrun. split; [done|]. split.
    + intros _. by exists b.
    + by destruct content.
  - assert (process_documents_concurrently (Some content) output_file
              default_max_concurrency llm = Some (Raised e)) as Hrun.
    { unfold process_documents_concurrently. by rewrite Hit. }
    rewrite Hrun. split; [done|].
    destruct content; simpl in Hit; try done; injection Hit as <-; by split.
Qed.

(** ** The written store *)

Lemma write_entries_subseteq (E : store) entries :
  (∀ id, id ∈ entries.*1 → E !! id = None) → E ⊆ foldl write_entry E entries.
Proof.
  intros Hnew. apply map_subseteq_spec. intros id v Hv.
  rewrite write_entries_other; [done|].
  intros Hin. apply Hnew in Hin. congruence.
Qed.

Lemma write_entries_value (E : store) entries id :
  id ∈ entries.*1 →
  ∃ sections, (id, sections) ∈ entries ∧
    foldl write_entry E entries !! id = Some (Sections_model_dump sections).
Proof.
  induction entries as [|[k s] entries IH] using rev_ind; [by intros ?%elem_of_nil|].
  rewrite fmap_app, write_entries_snoc. simpl. intros Hin.
  destruct (decide (k = id)) as [->|Hne].
  - exists s. split; [apply elem_of_app; right; by left|].
    by rewrite lookup_insert_eq.
  - apply elem_of_app in Hin as [Hin|Hin].
    + destruct (IH Hin) as (s' & Hs' & Hl). exists s'.
      split; [apply elem_of_app; by left|]. by rewrite lookup_insert_ne.
    + apply list_elem_of_singleton in Hin. congruence.
Qed.

Lemma pending_absent (E : store) (docs : list TextDocument) llm id :
  id ∈ (mjoin (filter_results
                 (imap (task_value llm)
                    (filter (λ doc, E !! doc_id doc = None) docs)))).*1 →
  E !! id = None.
Proof.
  intros Hin. apply successes_ids in Hin.
  apply list_elem_of_fmap in Hin as (doc & -> & Hin).
  by apply list_elem_of_filter in Hin as [? _].
Qed.

(** X11: a run only adds to the store.  The store that it writes contains
    the store that it read, entry for entry; its identifiers are those of
    the old store and those of the successes of the run; and every entry
    that it adds is under an identifier that the old store did not have and
    is the dump of a [Sections] that one of the tasks returned. *)
Theorem store_only_grows content items output_file N llm :
  iterate content = Returned items →
  0 < N →
  ∃ b, process_documents_concurrently (Some content) output_file N llm
       = Some (Returned b) ∧
    default ∅ output_file ⊆ headings_data b ∧
    dom (headings_data b)
    = dom (default ∅ output_file) ∪ list_to_set (mjoin (results b)).*1 ∧
    (∀ id, id ∈ (mjoin (results b)).*1 →
       default ∅ output_file !! id = None ∧
       ∃ sections, (id, sections) ∈ mjoin (results b) ∧
         headings_data b !! id = Some (Sections_model_dump sections)).
Proof.
  intros Hit HN.
  destruct (batch_spec content items output_file N llm Hit HN)
    as (b & Hrun & _ & _ & Hdocs & Hg & Hres & Hh & _).
  assert (∀ id, id ∈ (mjoin (results b)).*1 → default ∅ output_file !! id = None)
    as Hnew.
  { intros id. rewrite Hres, Hg, Hdocs. apply pending_absent. }
  exists b. split; [done|]. rewrite Hh. split; [|split].
  - by apply write_entries_subseteq.
  - apply write_entries_dom.
  - intros id Hin. split; [by apply Hnew|]. by apply write_entries_value.
Qed.

(** A document is left without an entry exactly when the store had none
    for its identifier and every pending document with that identifier
    failed. *)
Lemma stored_None_iff (E : store) llm docs id :
  foldl write_entry E (mjoin (filter_results (imap (task_value llm) docs))) !! id = None
  ↔ E !! id = None ∧
    ∀ i doc, docs !! i = Some doc → doc_id doc = id → task_value llm i doc = None.
Proof.
  split.
  - intros Hnone. apply write_entries_None in Hnone as [HE Hnot].
    split; [done|]. intros i doc Hi <-.
    destruct (task_value llm i doc) as [result|] eqn:Hv; [exfalso|done].
    destruct (task_value_Some _ _ _ _ Hv) as [s ->].
    apply Hnot. apply list_elem_of_fmap. exists (doc_id doc, s). split; [done|].
    apply successes_elem. by exists i, doc.
  - intros [HE Hall]. rewrite write_entries_other; [done|].
    intros Hin. apply list_elem_of_fmap in Hin as ([id' s] & Heq & Hin).
    simpl in Heq. subst id'.
    apply successes_elem in Hin as (i & doc & Hi & -> & Hv).
    by rewrite (Hall i doc Hi eq_refl) in Hv.
Qed.

(** X12: what is reported when identifiers repeat.  An identifier is in
    the report exactly when it is the identifier of a pending document and
    every pending document that carries it failed: one success among the
    documents of an identifier takes all of them out of the report. *)
Theorem failed_docs_spec content items output_file N llm :
  iterate content = Returned items →
  0 < N →
  ∃ b, process_documents_concurrently (Some content) output_file N llm
       = Some (Returned b) ∧
    ∀ id, id ∈ failed_docs b ↔
      (∃ doc, doc ∈ all_documents b ∧ doc_id doc = id) ∧
      (∀ i doc, all_documents b !! i = Some doc → doc_id doc = id →
         gathered b !! i = Some None).
Proof.
  intros Hit HN.
  destruct (batch_spec content items output_file N llm Hit HN)
    as (b & Hrun & _ & _ & Hdocs & Hg & Hres & Hh & Hf & _).
  exists b. split; [done|]. intros id.
  rewrite Hf. unfold find_failed_docs. rewrite list_elem_of_fmap.
  assert (∀ i doc, all_documents b !! i = Some doc →
            gathered b !! i = Some (task_value llm i doc)) as Hgi.
  { intros i doc Hi. by rewrite Hg, list_lookup_imap, Hi. }
  split.
  - intros (doc & -> & Hin). apply list_elem_of_filter in Hin as [Hnone Hin].
    simpl in Hnone. rewrite Hh, Hres, Hg in Hnone.
    apply stored_None_iff in Hnone as [_ Hall].
    split; [by exists doc|]. intros i doc' Hi Heq.
    rewrite (Hgi i doc' Hi). f_equal. by apply Hall.
  - intros [(doc & Hin & <-) Hall]. exists doc. split; [done|].
    apply list_elem_of_filter. split; [|done]. simpl.
    rewrite Hh, Hres, Hg. apply stored_None_iff. split.
    + rewrite Hdocs in Hin. by apply list_elem_of_filter in Hin as [? _].
    + intros i doc' Hi Heq. specialize (Hall i doc' Hi Heq).
      rewrite (Hgi i doc' Hi) in Hall. congruence.
Qed.

(** X13: what is stored when identifiers repeat.  When a pending document
    succeeds and every later pending document with the same identifier
    fails, the store holds the result of that document: of several
    successes for one identifier the last one in the order of the input
    stays. *)
Theorem last_success_stored content items output_file N llm :
  iterate content = Returned items →
  0 < N →
  ∃ b, process_documents_concurrently (Some content) output_file N llm
       = Some (Returned b) ∧
    ∀ before B after sections,
      all_documents b = before ++ B :: after →
      gathered b !! length before = Some (Some [(doc_id B, sections)]) →
      (∀ j doc, after !! j = Some doc → doc_id doc = doc_id B →
         gathered b !! (length before + S j)%nat = Some None) →
      headings_data b !! doc_id B = Some (Sections_model_dump sections).
Proof.
  intros Hit HN.
  destruct (batch_spec content items output_file N llm Hit HN)
    as (b & Hrun & _ & _ & _ & Hg & Hres & Hh & _).
  exists b. split; [done|].
  intros before B after sections Hsplit HB Hafter.
  rewrite Hh, Hres, Hg, Hsplit. rewrite Hg, Hsplit in HB, Hafter.
  rewrite imap_app, imap_cons in *.
  rewrite lookup_app_r in HB by (by rewrite length_imap).
  rewrite length_imap, Nat.sub_diag in HB. simpl in HB.
  injection HB as HB. rewrite Nat.add_0_r in HB.
  unfold filter_results. rewrite omap_app, join_app. csimpl.
  rewrite Nat.add_0_r, HB. simpl.
  apply write_entries_last.
  intros Hin. apply list_elem_of_fmap in Hin as ([id s] & Heq & Hin).
  simpl in Heq. subst id.
  change (omap Datatypes.id
            (imap ((λ n, task_value llm (length before + n)) ∘ S) after))
    with (filter_results
            (imap (task_value (λ n, llm (length before + S n)%nat)) after)) in Hin.
  apply successes_elem in Hin as (j & doc & Hj & Heq & Hv).
  specialize (Hafter j doc Hj (eq_sym Heq)).
  rewrite lookup_app_r in Hafter by (rewrite length_imap; lia).
  rewrite length_imap in Hafter.
  replace (length before + S j - length before)%nat with (S j) in Hafter by lia.
  simpl in Hafter. rewrite list_lookup_imap, Hj in Hafter. simpl in Hafter.
  unfold task_value in Hv, Hafter. congruence.
Qed.

(** ** The numbers of the summary (line 181) *)

Lemma write_entries_size (E : store) entries :
  NoDup entries.*1 →
  (∀ id, id ∈ entries.*1 → E !! id = None) →
  size (foldl write_entry E entries) = (size E + length entries)%nat.
Proof.
  induction entries as [|entry entries IH] using rev_ind; intros Hnd Hnew.
  - simpl. lia.
  - rewrite fmap_app in Hnd, Hnew. simpl in Hnd, Hnew.
    apply NoDup_app in Hnd as (Hnd & Hnot & _).
    rewrite write_entries_snoc, length_app. simpl.
    rewrite map_size_insert_None.
    + rewrite IH; [lia|done|]. intros id Hid. apply Hnew, elem_of_app. by left.
    + rewrite write_entries_other.
      * apply Hnew, elem_of_app. right. by left.
      * intros Hin. apply (Hnot _ Hin). by left.
Qed.

Lemma successes_length (f : nat → TextDocument → option Result) docs :
  (∀ i doc result, f i doc = Some result →
     ∃ sections, result = [(doc_id doc, sections)]) →
  length (mjoin (filter_results (imap f docs))) = length (filter_results (imap f docs)).
Proof.
  revert f. induction docs as [|doc docs IH]; intros f Hf; [done|].
  rewrite imap_cons. unfold filter_results. csimpl.
  destruct (f 0%nat doc) as [result|] eqn:Hr; simpl.
  - destruct (Hf _ _ _ Hr) as [s ->]. simpl. f_equal.
    apply IH. intros i d r. apply Hf.
  - apply IH. intros i d r. apply Hf.
Qed.

Lemma failures_length {A B} (f : nat → A → option B) (P : A → Prop)
    `{!∀ x, Decision (P x)} (l : list A) :
  (∀ i x, l !! i = Some x → (P x ↔ f i x = None)) →
  (length (omap id (imap f l)) + length (filter P l) = length l)%nat.
Proof.
  revert f. induction l as [|x l IH]; intros f Hf; [done|].
  rewrite imap_cons, filter_cons. csimpl.
  specialize (IH (f ∘ S) (λ i y Hi, Hf (S i) y Hi)).
  pose proof (Hf 0%nat x eq_refl) as Hx.
  destruct (decide (P x)) as [HP|HP].
  - rewrite (proj1 Hx HP). simpl. lia.
  - destruct (f 0%nat x) as [y|]; [simpl; lia|]. exfalso. by apply HP, Hx.
Qed.

(** X14: the numbers that the summary logs add up when the pending
    documents have distinct identifiers: the store has grown by the number
    of new results, and every pending document is either a new result or in
    the report. *)
Theorem summary_counts content items output_file N llm :
  iterate content = Returned items →
  0 < N →
  ∃ b, process_documents_concurrently (Some content) output_file N llm
       = Some (Returned b) ∧
    (NoDup (doc_id <$> all_documents b) →
       size (headings_data b)
       = (size (default ∅ output_file) + length (results b))%nat ∧
       (length (results b) + length (failed_docs b)
        = length (all_documents b))%nat).
Proof.
  intros Hit HN.
  destruct (batch_spec content items output_file N llm Hit HN)
    as (b & Hrun & _ & _ & Hdocs & Hg & Hres & Hh & Hf & _).
  exists b. split; [done|]. intros Hnd. split.
  - rewrite Hh, write_entries_size.
    + f_equal. rewrite Hres, Hg. apply successes_length, task_value_Some.
    + rewrite Hres, Hg. by apply successes_NoDup.
    + intros id. rewrite Hres, Hg, Hdocs. apply pending_absent.
  - rewrite Hf. unfold find_failed_docs. rewrite length_fmap, Hres, Hg.
    apply failures_length. intros i doc Hi. simpl.
    rewrite Hh, Hres, Hg, stored_None_iff. split.
    + intros [_ Hall]. by apply Hall.
    + intros Hnone. split.
      * apply list_elem_of_lookup_2 in Hi. rewrite Hdocs in Hi.
        by apply list_elem_of_filter in Hi as [? _].
      * intros j doc' Hj Heq.
        by destruct (NoDup_ids_lookup _ _ _ _ _ Hnd Hj Hi Heq) as [-> ->].
Qed.

(** ** Running again, whatever the collaborator does *)

(** X15: a second run over the output of the first, with any answers of
    the collaborator in either run: the second run has pending exactly the
    documents that the first run left without an entry, their identifiers
    are the report of the first run, and the store after the second run
    contains the store after the first. *)
Theorem resume_after_failures content items output_file N llm1 llm2 :
  iterate content = Returned items →
  0 < N →
  ∃ b1 b2,
    process_documents_concurrently (Some content) output_file N llm1
    = Some (Returned b1) ∧
    process_documents_concurrently (Some content) (Some (headings_data b1)) N llm2
    = Some (Returned b2) ∧
    all_documents b2
    = filter (λ doc, headings_data b1 !! doc_id doc = None) (all_documents b1) ∧
    doc_id <$> all_documents b2 = failed_docs b1 ∧
    (length (all_documents b2) ≤ length (all_documents b1))%nat ∧
    headings_data b1 ⊆ headings_data b2.
Proof.
  intros Hit HN.
  destruct (batch_spec content items output_file N llm1 Hit HN)
    as (b1 & Hrun1 & Hpubs1 & _ & Hdocs1 & _ & _ & Hh1 & Hf1 & _).
  destruct (batch_spec content items (Some (headings_data b1)) N llm2 Hit HN)
    as (b2 & Hrun2 & Hpubs2 & _ & Hdocs2 & Hg2 & Hres2 & Hh2 & _).
  simpl in Hdocs2, Hh2.
  assert (all_documents b2
          = filter (λ doc, headings_data b1 !! doc_id doc = None) (all_documents b1))
    as Hpending.
  { rewrite Hdocs2, Hdocs1, Hpubs2, <-Hpubs1, Hh1. apply next_pending. }
  exists b1, b2. split; [done|]. split; [done|]. split; [done|].
  split; [by rewrite Hpending, Hf1|]. split.
  - rewrite Hpending. apply length_filter.
  - rewrite Hh2. apply write_entries_subseteq.
    intros id. rewrite Hres2, Hg2, Hdocs2. apply pending_absent.
Qed.

(** ** The pool of tasks *)

Lemma pool_step_length outcomes ev p p' :
  pool_step outcomes ev p = Some p' →
  length (task_states p') = length (task_states p).
Proof.
  unfold pool_step. intros Hstep.
  destruct ev as [i|i]; destruct (task_states p !! i) as [[| |o]|]; try done.
  - destruct (decide (0 < sem_value p)); [|done]. injection Hstep as <-.
    apply length_insert.
  - destruct (outcomes !! i); [|done]. injection Hstep as <-. apply length_insert.
Qed.

Lemma pool_run_length outcomes schedule p p' :
  pool_run outcomes schedule p = Some p' →
  length (task_states p') = length (task_states p).
Proof.
  revert p. induction schedule as [|ev schedule IH]; intros p Hrun; simpl in Hrun.
  - by injection Hrun as <-.
  - destruct (pool_step outcomes ev p) as [p1|] eqn:Hstep; [|done].
    simpl in Hrun. rewrite (IH _ Hrun). by eapply pool_step_length.
Qed.

Lemma progress_insert (states : list task_state) i t t' :
  states !! i = Some t →
  (sum_list (task_progress <$> <[i := t']> states) + task_progress t
   = sum_list (task_progress <$> states) + task_progress t')%nat.
Proof.
  revert i. induction states as [|t0 states IH]; intros i Hi; [done|].
  destruct i as [|i]; csimpl in *.
  - injection Hi as ->. lia.
  - specialize (IH i Hi). lia.
Qed.

Lemma pool_run_progress outcomes schedule p p' :
  pool_run outcomes schedule p = Some p' →
  (length schedule + sum_list (task_progress <$> task_states p)
   = sum_list (task_progress <$> task_states p'))%nat.
Proof.
  revert p. induction schedule as [|ev schedule IH]; intros p Hrun; simpl in Hrun.
  - by injection Hrun as <-.
  - destruct (pool_step outcomes ev p) as [p1|] eqn:Hstep; [|done].
    simpl in Hrun. specialize (IH _ Hrun). csimpl. rewrite <-IH.
    unfold pool_step in Hstep.
    destruct ev as [i|i]; destruct (task_states p !! i) as [[| |o]|] eqn:Hi;
      try done.
    + destruct (decide (0 < sem_value p)); [|done]. injection Hstep as <-.
      pose proof (progress_insert _ _ _ Holding Hi). csimpl in *. lia.
    + destruct (outcomes !! i) as [o|]; [|done]. injection Hstep as <-.
      pose proof (progress_insert _ _ _ (Exited o) Hi). csimpl in *. lia.
Qed.

Lemma progress_bound (states : list task_state) :
  (sum_list (task_progress <$> states) ≤ 2 * length states)%nat.
Proof.
  induction states as [|t states IH]; csimpl; [lia|].
  destruct t; csimpl; lia.
Qed.

Lemma progress_init value tasks :
  sum_list (task_progress <$> task_states (pool_init value tasks)) = 0%nat.
Proof. simpl. induction tasks as [|n IH]; [done|]. csimpl. exact IH. Qed.

(** X16: no task is admitted twice and no task leaves twice.  The number
    of events of any run of the pool is the number of admissions so far
    plus the number of exits so far, one for each task inside its block and
    two for each task that has left; a batch of [n] tasks therefore has at
    most [2 * n] events, whatever the order. *)
Theorem pool_event_count N outcomes tasks schedule p :
  pool_run outcomes schedule (pool_init N tasks) = Some p →
  length schedule = sum_list (task_progress <$> task_states p)
  ∧ (length schedule ≤ 2 * tasks)%nat.
Proof.
  intros Hrun.
  pose proof (pool_run_progress _ _ _ _ Hrun) as Hcount.
  rewrite progress_init, Nat.add_0_r in Hcount.
  split; [done|]. rewrite Hcount.
  pose proof (progress_bound (task_states p)) as Hbound.
  rewrite (pool_run_length _ _ _ _ Hrun) in Hbound. simpl in Hbound.
  by rewrite length_replicate in Hbound.
Qed.

Lemma holding_or_idle (states : list task_state) :
  (∃ j, states !! j = Some Holding) ∨
  length (filter (λ t, is_holding t) states) = 0%nat.
Proof.
  induction states as [|t states [[j Hj]|IH]].
  - by right.
  - left. by exists (S j).
  - destruct t as [| |o].
    + right. by rewrite filter_cons_False by (simpl; intros []).
    + left. by exists 0%nat.
    + right. by rewrite filter_cons_False by (simpl; intros []).
Qed.

(** X17: with a positive capacity the pool cannot get stuck.  In every
    state that a run can reach, as long as some task has not left its block
    there is an event that can happen: a task inside its block can leave,
    and when no task is inside, the counter is positive and a waiting task
    can be admitted. *)
Theorem pool_no_deadlock N outcomes schedule p :
  0 < N →
  pool_run outcomes schedule (pool_init N (length outcomes)) = Some p →
  (∃ i t, task_states p !! i = Some t ∧ task_progress t ≠ 2%nat) →
  ∃ ev p', pool_step outcomes ev p = Some p'.
Proof.
  intros HN Hrun (i & t & Hi & Ht).
  assert (pool_inv N p) as [Hpos Hsum].
  { eapply pool_run_inv; [|done]. split; [simpl; lia|].
    rewrite in_flight_init. simpl. lia. }
  pose proof (pool_run_length _ _ _ _ Hrun) as Hlen. simpl in Hlen.
  rewrite length_replicate in Hlen.
  destruct (holding_or_idle (task_states p)) as [[j Hj]|Hidle].
  - assert (is_Some (outcomes !! j)) as [o Ho].
    { apply lookup_lt_is_Some. rewrite <-Hlen. by eapply lookup_lt_Some. }
    exists (Exit j). eexists. unfold pool_step. by rewrite Hj, Ho.
  - destruct t as [| |o]; [| |done].
    + exists (Acquire i). eexists. unfold pool_step. rewrite Hi.
      unfold in_flight in Hsum. rewrite Hidle in Hsum.
      by rewrite decide_True by lia.
    + assert (Holding ∈ filter (λ t, is_holding t) (task_states p)) as Hin.
      { apply list_elem_of_filter. split; [done|].
        by eapply list_elem_of_lookup_2. }
      destruct (filter _ (task_states p)); [by apply elem_of_nil in Hin|done].
Qed.

(** X18: when every task has left its block, whatever the order of the
    events was, the counter of the semaphore is back at the capacity, the
    outcomes that the tasks left are the outcomes of their bodies in the
    order of the tasks (what [gather] returns), and the run took exactly
    two events per task. *)
Theorem pool_completion N outcomes schedule p :
  Semaphore N = Returned N →
  pool_run outcomes schedule (pool_init N (length outcomes)) = Some p →
  Forall (λ t, task_progress t = 2%nat) (task_states p) →
  sem_value p = N
  ∧ task_states p = Exited <$> outcomes
  ∧ length schedule = (2 * length outcomes)%nat.
Proof.
  intros Hsem Hrun Hall.
  assert (0 ≤ N)%Z as HN.
  { unfold Semaphore in Hsem. by destruct (decide (N < 0)); [|lia]. }
  assert (pool_inv N p) as [Hpos Hsum].
  { eapply pool_run_inv; [|done]. split; [done|].
    rewrite in_flight_init. simpl. lia. }
  pose proof (pool_run_length _ _ _ _ Hrun) as Hlen. simpl in Hlen.
  rewrite length_replicate in Hlen.
  split; [|split].
  - destruct (holding_or_idle (task_states p)) as [[j Hj]|Hidle].
    + rewrite Forall_forall in Hall.
      by specialize (Hall Holding (list_elem_of_lookup_2 _ _ _ Hj)).
    + unfold in_flight in Hsum. rewrite Hidle in Hsum. simpl in Hsum. lia.
  - apply list_eq. intros i. rewrite list_lookup_fmap.
    destruct (task_states p !! i) as [t|] eqn:Hi.
    + rewrite Forall_forall in Hall.
      specialize (Hall t (list_elem_of_lookup_2 _ _ _ Hi)).
      destruct t as [| |o]; [done|done|].
      by rewrite (pool_exited_outcome _ _ _ _ _ _ _ Hrun Hi).
    + apply lookup_ge_None in Hi. rewrite Hlen in Hi.
      apply lookup_ge_None in Hi. by rewrite Hi.
  - pose proof (pool_run_progress _ _ _ _ Hrun) as Hcount.
    rewrite progress_init, Nat.add_0_r in Hcount.
    rewrite Hcount, <-Hlen. clear -Hall.
    induction Hall as [|t states Ht _ IH]; [done|]. csimpl. rewrite Ht, IH. lia.
Qed.

(** ** Independence *)

(** X19: validation of a payload reads the eight declared keys and
    nothing else: two objects that agree on these keys validate alike,
    whatever other keys they carry and in whatever order; and a payload
    that is not an object never validates. *)
Theorem sections_validation_reads_declared_keys :
  (∀ members1 members2,
     (∀ name, name ∈ section_names →
        dict_get name members1 = dict_get name members2) →
     Sections_model_validate (JObj members1) = Sections_model_validate (JObj members2))
  ∧ (∀ j, (∀ members, j ≠ JObj members) → Sections_model_validate j = None).
Proof.
  split.
  - intros members1 members2 Hsame.
    unfold Sections_model_validate, required.
    rewrite !Hsame; [done|..]; unfold section_names;
      repeat (first [by left | right]).
  - intros j Hnot. destruct j; try done. by destruct (Hnot members).
Qed.

(** X20: the outcome of a task depends on the first answer that the
    collaborator gives to that task and on nothing else: two runs over the
    same files have the same pending documents, and a task gets the same
    outcome in both when its first answer is the same, whatever the other
    tasks are answered. *)
Theorem task_isolation content items output_file N llm llm' i :
  iterate content = Returned items →
  0 < N →
  ∃ b b',
    process_documents_concurrently (Some content) output_file N llm
    = Some (Returned b) ∧
    process_documents_concurrently (Some content) output_file N llm'
    = Some (Returned b') ∧
    all_documents b' = all_documents b ∧
    (∀ doc, all_documents b !! i = Some doc →
       llm i doc 0%nat = llm' i doc 0%nat →
       gathered b !! i = gathered b' !! i).
Proof.
  intros Hit HN.
  destruct (batch_spec content items output_file N llm Hit HN)
    as (b & Hrun & Hpubs & _ & Hdocs & Hg & _).
  destruct (batch_spec content items output_file N llm' Hit HN)
    as (b' & Hrun' & Hpubs' & _ & Hdocs' & Hg' & _).
  assert (all_documents b' = all_documents b) as Hsame.
  { by rewrite Hdocs, Hdocs', Hpubs, Hpubs'. }
  exists b, b'. split; [done|]. split; [done|]. split; [done|].
  intros doc Hi Heq.
  rewrite Hg, Hg', Hsame, !list_lookup_imap, Hi. simpl.
  unfold task_value. by rewrite Heq.
Qed.

(** X21: with distinct identifiers the order in which the results are
    merged does not matter: any rearrangement of the results gives the same
    store. *)
Theorem merge_order_irrelevant (E : store) (results results' : list Result) :
  results ≡ₚ results' →
  NoDup (mjoin results).*1 →
  combine_results E results = combine_results E results'.
Proof.
  intros Hperm Hnd. rewrite !combine_results_spec.
  assert (mjoin results ≡ₚ mjoin results') as Hjoin by by rewrite Hperm.
  assert (NoDup (mjoin results').*1) as Hnd' by by rewrite <-Hjoin.
  apply map_eq. intros id.
  destruct (decide (id ∈ (mjoin results).*1)) as [Hin|Hnot].
  - apply list_elem_of_fmap in Hin as ([id' sections] & Heq & Hin).
    simpl in Heq. subst id'.
    rewrite (write_entries_NoDup E _ id sections Hnd Hin).
    rewrite Hjoin in Hin.
    by rewrite (write_entries_NoDup E _ id sections Hnd' Hin).
  - rewrite !write_entries_other; [done| |done]. by rewrite <-Hjoin.
Qed.

End Script.

(** * Examples

    The properties at concrete inputs, with [strict_int] for the validator
    of integer fields. *)

(** C2 at a collaborator that returns a stream wrapper. *)
Lemma process_text_never_raises_witness :
  ∃ r w', process_text strict_int (λ _, Responds CustomStreamWrapper)
            (mkTextDocument "d1" []) initial_world = (Returned r, w')
          ∧ r = None.
Proof.
  destruct (process_text_never_raises strict_int (λ _, Responds CustomStreamWrapper)
              (mkTextDocument "d1" []) initial_world)
    as (r & w' & Hrun & _ & Hstream & _).
  exists r, w'. split; [exact Hrun|]. apply Hstream. reflexivity.
Defined.

(** C10 at a payload without the ["body"] key. *)
Lemma sections_require_all_keys_witness :
  "body" ∈ section_names ∧ dict_get "body" no_body = None ∧
  Sections_model_validate_json strict_int (Text (Some (JObj no_body))) = None ∧
  process_text strict_int (λ _, Responds (ModelResponse [Text (Some (JObj no_body))]))
    (mkTextDocument "d1" []) initial_world
  = (Returned None, mkWorld 1 [] [ErrorTextProcessing ValidationError]).
Proof.
  assert ("body" ∈ section_names) as Hkey by by_computation.
  assert (dict_get "body" no_body = None) as Hget by reflexivity.
  destruct (sections_require_all_keys strict_int no_body "body" Hkey Hget)
    as (Hv & Hp & _).
  split; [exact Hkey|]. split; [exact Hget|]. split; [exact Hv|].
  apply (Hp _ _ []). reflexivity.
Defined.

(** C3: an old entry survives, a failure adds nothing, the success for
    [d3] at the head of the list is written, and of the two successes for
    [d1] the later one is kept. *)
Lemma merge_non_destructive_witness :
  let E : store := {["d0" := JStr "old"]} in
  let O := [Some [("d3", body_only_sections)];
            Some [("d1", no_sections)];
            None;
            Some [("d1", body_only_sections)]] in
  combine_results E (filter_results O) !! "d0" = Some (JStr "old") ∧
  combine_results E (filter_results O) !! "d3" = Some body_only ∧
  combine_results E (filter_results O) !! "d1" = Some body_only.
Proof.
  intros E O.
  destruct (merge_non_destructive E O) as (_ & _ & Hother & Hlast & _).
  assert (∀ (id : string) (l : list (option Result)),
            (∀ result, Some result ∈ l → id ∉ result.*1) ↔
            Forall (λ o, match o with
                         | Some result => id ∉ result.*1
                         | None => True
                         end) l) as Hall.
  { intros id l. rewrite Forall_forall. split.
    - intros H [result|] Hin; [by apply H|done].
    - intros H result Hin. apply (H _ Hin). }
  split; [|split].
  - rewrite (Hother "d0"); [reflexivity|]. apply Hall.
    repeat constructor; by_computation.
  - rewrite (Hlast [] [("d3", body_only_sections)]
               [Some [("d1", no_sections)]; None; Some [("d1", body_only_sections)]]
               [] [] "d3" body_only_sections);
      [reflexivity|reflexivity|reflexivity|by_computation|].
    apply Hall. repeat constructor; by_computation.
  - rewrite (Hlast [Some [("d3", body_only_sections)]; Some [("d1", no_sections)]; None]
               [("d1", body_only_sections)] [] [] [] "d1" body_only_sections);
      [reflexivity|reflexivity|reflexivity|by_computation|].
    apply Hall. constructor.
Defined.

(** C4: the output file holds an entry for [d1]; the input has [d1] and
    [d2].  Only [d2] is pending, and the entry of [d1] is kept as it was. *)
Lemma present_entries_untouched_witness :
  let content := JArr [sample_publication "p1"
                         [sample_document "d1"; sample_document "d2"]] in
  let existing : store := {["d1" := JStr "loaded"]} in
  ∃ b, process_documents_concurrently strict_int (Some content) (Some existing)
         default_max_concurrency always_answers = Some (Returned b) ∧
       doc_id <$> all_documents b = ["d2"] ∧
       headings_data b !! "d1" = Some (JStr "loaded") ∧
       headings_data b !! "d2" = Some body_only.
Proof.
  intros content existing.
  destruct (present_entries_untouched strict_int content
              [sample_publication "p1" [sample_document "d1"; sample_document "d2"]]
              existing default_max_concurrency always_answers eq_refl eq_refl)
    as (b & Hrun & _ & _ & Hkept).
  destruct (Hkept "d1" (JStr "loaded") eq_refl) as (_ & _ & Hd1).
  exists b. split; [exact Hrun|].
  vm_compute in Hrun. injection Hrun as Hb. subst b.
  split; [reflexivity|]. split; [exact Hd1|reflexivity].
Defined.


(** C6: [a] fails and [b] succeeds.  The store gets the result of [b] and
    nothing for [a], and the report is [["a"]]. *)
Lemma partial_failure_isolation_witness :
  let content := JArr [sample_publication "p1"
                         [sample_document "a"; sample_document "b"]] in
  ∃ b, process_documents_concurrently strict_int (Some content) None
         default_max_concurrency
         (λ _ doc _, fails_for "a" doc) = Some (Returned b) ∧
       NoDup (doc_id <$> all_documents b) ∧
       gathered b = [None; Some [("b", body_only_sections)]] ∧
       headings_data b !! "a" = None ∧
       headings_data b !! "b" = Some body_only ∧
       failed_docs b = ["a"] ∧
       report_log b = [ErrorFailedDocs ["a"]].
Proof.
  intros content.
  destruct (partial_failure_isolation strict_int content
              [sample_publication "p1" [sample_document "a"; sample_document "b"]]
              None default_max_concurrency (λ _ doc _, fails_for "a" doc) eq_refl eq_refl)
    as (b & Hrun & Hfailed & Hlog & Hdistinct).
  exists b. split; [exact Hrun|].
  vm_compute in Hrun. injection Hrun as Hb. subst b.
  assert (NoDup ["a"; "b"]) as Hnd by by_computation.
  destruct (Hdistinct Hnd) as (HA & HB & _).
  destruct (HA 0%nat (mkTextDocument "a" [mkTextPage 1 "text"]) eq_refl eq_refl)
    as [Ha _].
  destruct (HB 1%nat (mkTextDocument "b" [mkTextPage 1 "text"]) body_only_sections
              eq_refl eq_refl) as [Hb _].
  split; [exact Hnd|]. split; [reflexivity|]. split; [exact Ha|].
  split; [exact Hb|]. split; [reflexivity|reflexivity].
Defined.

(** C7: [a] fails and [b] succeeds, twice.  The second run starts from the
    output of the first, processes [a] alone, and writes the same store. *)
Lemma idempotent_resume_witness :
  let content := JArr [sample_publication "p1"
                         [sample_document "a"; sample_document "b"]] in
  let llm := λ (_ : nat) doc (_ : nat), fails_for "a" doc in
  ∃ b1 b2,
    process_documents_concurrently strict_int (Some content) None
      default_max_concurrency llm
    = Some (Returned b1) ∧
    process_documents_concurrently strict_int (Some content)
      (Some (headings_data b1)) default_max_concurrency llm = Some (Returned b2) ∧
    headings_data b2 = headings_data b1 ∧
    doc_id <$> all_documents b2 = ["a"] ∧
    headings_data b1 = {["b" := body_only]}.
Proof.
  intros content llm.
  destruct (idempotent_resume strict_int content
              [sample_publication "p1" [sample_document "a"; sample_document "b"]]
              None default_max_concurrency (fails_for "a") llm llm eq_refl eq_refl
              (λ _ _ _, eq_refl) (λ _ _ _, eq_refl))
    as (b1 & b2 & Hrun1 & Hrun2 & Hsame & Hpending & _).
  rewrite Hrun1 in Hrun2. simpl in Hrun2.
  exists b1, b2. split; [exact Hrun1|]. split; [exact Hrun2|].
  split; [exact Hsame|].
  rewrite Hpending. clear Hrun2 Hsame Hpending.
  vm_compute in Hrun1. injection Hrun1 as Hb. subst b1.
  split; reflexivity.
Defined.

(** C8 as amended: the second of three entries has no ["pub_id"].  It is
    logged and left out, and the documents of the other two are processed. *)
Lemma malformed_publication_dropped_witness :
  let bad := JObj [("documents", JArr [sample_document "d2"])] in
  let content := JArr [sample_publication "p1" [sample_document "d1"]; bad;
                       sample_publication "p3" [sample_document "d3"]] in
  TextPublication_model_validate strict_int bad = None ∧
  ∃ b, process_documents_concurrently strict_int (Some content) None
         default_max_concurrency always_answers
       = Some (Returned b) ∧
       pub_id <$> publications b = ["p1"; "p3"] ∧
       parse_log b = [ErrorParsingPublication bad] ∧
       doc_id <$> all_documents b = ["d1"; "d3"] ∧
       length (gathered b) = 2%nat.
Proof.
  intros bad content.
  assert (TextPublication_model_validate strict_int bad = None) as Hbad by reflexivity.
  assert (Forall (λ j, is_Some (TextPublication_model_validate strict_int j))
            ([sample_publication "p1" [sample_document "d1"]] ++
             [sample_publication "p3" [sample_document "d3"]])) as Hvalid.
  { repeat constructor; by eexists. }
  destruct (malformed_publication_dropped strict_int
              [sample_publication "p1" [sample_document "d1"]] bad
              [sample_publication "p3" [sample_document "d3"]]
              None default_max_concurrency always_answers Hbad Hvalid eq_refl)
    as (b & Hrun & _ & _ & Hlog & _).
  split; [exact Hbad|].
  exists b. split; [exact Hrun|].
  assert (parse_log b = [ErrorParsingPublication bad]) as Hlog' by exact Hlog.
  clear Hlog. vm_compute in Hrun. injection Hrun as Hb. subst b.
  split; [reflexivity|]. split; [exact Hlog'|]. split; reflexivity.
Defined.

(** C8 as stated fails: the input holds one malformed document, without
    ["doc_id"], and the valid document [d1], in one publication.  The
    publication does not validate, so the valid [d1], which has no stored
    result, is neither loaded nor processed, and what is logged is the
    publication. *)
Lemma valid_sibling_dropped :
  let good := JObj [("doc_id", JStr "d1")] in
  let malformed := JObj [("pages", JArr [])] in
  let content := JArr [sample_publication "p1" [good; malformed]] in
  TextDocument_model_validate strict_int good = Some (mkTextDocument "d1" []) ∧
  TextDocument_model_validate strict_int malformed = None ∧
  ∃ b, process_documents_concurrently strict_int (Some content) None
         default_max_concurrency always_answers
       = Some (Returned b) ∧
       publications b = [] ∧
       parse_log b
       = [ErrorParsingPublication (sample_publication "p1" [good; malformed])] ∧
       (mkTextDocument "d1" [] ∉ all_documents b) ∧
       gathered b = [] ∧
       headings_data b !! "d1" = None.
Proof.
  intros good malformed content.
  split; [reflexivity|]. split; [reflexivity|].
  eexists. split; [vm_compute; reflexivity|].
  split; [reflexivity|]. split; [reflexivity|]. split; [apply not_elem_of_nil|].
  split; reflexivity.
Defined.

(** C6 as stated fails: two pending documents carry the identifier [a].
    The first fails and the second succeeds: the final store has an entry
    under the identifier of the failed document, and the report is empty. *)
Lemma failed_item_stored_and_unreported :
  let A := sample_document "a" in
  let B := JObj [("doc_id", JStr "a")] in
  let content := JArr [sample_publication "p1" [A; B]] in
  ∃ b, process_documents_concurrently strict_int (Some content) None
         default_max_concurrency fails_first = Some (Returned b) ∧
       all_documents b
       = [mkTextDocument "a" [mkTextPage 1 "text"]; mkTextDocument "a" []] ∧
       gathered b = [None; Some [("a", body_only_sections)]] ∧
       headings_data b !! "a" = Some body_only ∧
       failed_docs b = [] ∧
       report_log b = [].
Proof.
  intros A B content.
  eexists. split; [vm_compute; reflexivity|].
  split; [reflexivity|]. split; [reflexivity|]. split; [reflexivity|].
  split; reflexivity.
Defined.

(** C9 as amended: two documents with distinct identifiers, one of them
    already stored. *)
Lemma pending_documents_spec_witness :
  let content := JArr [sample_publication "p1"
                         [sample_document "d1"; sample_document "d2"]] in
  let existing : store := {["d1" := body_only]} in
  ∃ b, process_documents_concurrently strict_int (Some content) (Some existing)
         default_max_concurrency always_answers = Some (Returned b) ∧
       doc_id <$> mjoin (documents <$> publications b) = ["d1"; "d2"] ∧
       doc_id <$> all_documents b = ["d2"] ∧
       NoDup (doc_id <$> all_documents b).
Proof.
  intros content existing.
  destruct (pending_documents_spec strict_int content
              [sample_publication "p1" [sample_document "d1"; sample_document "d2"]]
              (Some existing) default_max_concurrency always_answers eq_refl eq_refl)
    as (b & Hrun & _ & Hnd).
  exists b. split; [exact Hrun|].
  vm_compute in Hrun. injection Hrun as Hb. subst b.
  assert (NoDup ["d1"; "d2"]) as Hids by by_computation.
  split; [reflexivity|]. split; [reflexivity|]. exact (Hnd Hids).
Defined.

(** C9 as stated fails: the input has two documents with the identifier
    [d1] and the store has none; both are pending. *)
Lemma duplicate_identifiers_pending :
  let content := JArr [sample_publication "p1"
                         [sample_document "d1"; sample_document "d1"]] in
  ∃ b, process_documents_concurrently strict_int (Some content) None
         default_max_concurrency always_answers
       = Some (Returned b) ∧
       doc_id <$> all_documents b = ["d1"; "d1"] ∧
       ¬ NoDup (doc_id <$> all_documents b).
Proof.
  intros content.
  eexists. split; [vm_compute; reflexivity|].
  split; [reflexivity|]. simpl.
  intros Hnd. apply NoDup_cons in Hnd as [Hnot _]. apply Hnot. by left.
Defined.

(** The scenario of two documents where [d1] is answered at once and [d2]
    would get a valid answer at the third call, after two answers that are
    not JSON: the third call is never made, and [d2] is reported as failed
    (see [process_text_single_attempt]). *)
Lemma third_answer_never_requested :
  let content := JArr [sample_publication "p1"
                         [sample_document "d1"; sample_document "d2"]] in
  let llm := λ (_ : nat) (doc : TextDocument) (attempt : nat),
    if decide (doc_id doc = "d2" ∧ (attempt < 2)%nat)
    then Responds (ModelResponse [Text None])
    else Responds (ModelResponse [Text (Some body_only)]) in
  ∃ b, process_documents_concurrently strict_int (Some content) None
         default_max_concurrency llm = Some (Returned b) ∧
       calls <$> task_worlds b = [1; 1]%nat ∧
       headings_data b = {["d1" := body_only]} ∧
       failed_docs b = ["d2"].
Proof.
  intros content llm.
  eexists. split; [vm_compute; reflexivity|].
  split; [reflexivity|]. split; reflexivity.
Qed.

(** * Examples of the further properties *)

(** X1 at a collaborator whose first answer validates. *)
Lemma process_text_outcome_witness :
  (process_text strict_int (always_answers 0%nat (mkTextDocument "d1" []))
     (mkTextDocument "d1" []) initial_world).1
  = Returned (Some [("d1", body_only_sections)]).
Proof.
  destruct (process_text_outcome strict_int
              (always_answers 0%nat (mkTextDocument "d1" []))
              (mkTextDocument "d1" []) initial_world) as (Hiff & _).
  apply Hiff. exists (Text (Some body_only)), [], body_only_sections.
  repeat split; reflexivity.
Defined.

(** X2 for the configuration of line 63, at the fourth attempt. *)
Lemma wait_exponential_bounds_witness :
  (4 ≤ wait_exponential 1 4 10 4 ≤ 10)%Z ∧ wait_exponential 1 4 10 4 = 8.
Proof.
  split; [|reflexivity].
  apply (wait_exponential_bounds 1 4 10 4); [lia|lia].
Defined.

(** X3 for the configuration of line 63 and a call that raises twice. *)
Lemma retry_attempts_witness :
  retry 3 (wait_exponential 1 4 10) (acompletion third_time_lucky) initial_world
  = (Returned (ModelResponse [Text (Some body_only)]), mkWorld 3 [4; 4] []).
Proof.
  assert (0 < 3)%nat as Hmax by lia.
  destruct (retry_attempts 3 (wait_exponential 1 4 10) third_time_lucky Hmax)
    as [Hreturns _].
  apply (Hreturns 2%nat); [lia| |reflexivity].
  intros i Hi. destruct i as [|[|i]]; [by eexists|by eexists|lia].
Defined.

(** X4 at a collection of a valid entry and a number. *)
Lemma load_publications_accounting_witness :
  load_publications strict_int [sample_publication "p1" []; JInt 7]
  = ((load_publications strict_int [sample_publication "p1" []]).1 ++
     (load_publications strict_int [JInt 7]).1,
     (load_publications strict_int [sample_publication "p1" []]).2 ++
     (load_publications strict_int [JInt 7]).2).
Proof.
  destruct (load_publications_accounting strict_int
              [sample_publication "p1" []; JInt 7]) as (_ & _ & Hparts).
  apply (Hparts [sample_publication "p1" []] [JInt 7]). reflexivity.
Defined.

(** X5 at a publication with a valid document and one without ["doc_id"]. *)
Lemma publication_valid_iff_witness :
  TextPublication_model_validate strict_int
    (sample_publication "p1" [sample_document "d1"; JObj [("pages", JArr [])]])
  = None.
Proof.
  destruct (publication_valid_iff strict_int
              [("pub_id", JStr "p1");
               ("documents", JArr [sample_document "d1"; JObj [("pages", JArr [])]])]
              "p1" [sample_document "d1"; JObj [("pages", JArr [])]]
              eq_refl eq_refl) as [Hiff _].
  apply Hiff. exists (JObj [("pages", JArr [])]).
  split; [|reflexivity]. right. left.
Defined.

(** X6 at sections whose body starts after it ends. *)
Lemma dump_validate_roundtrip_witness :
  let s := mkSections None None None None (Some (mkSectionPageRange 9 2))
             None None None in
  Sections_model_validate strict_int (Sections_model_dump s) = Some s.
Proof.
  intros s. apply (dump_validate_roundtrip strict_int s). intros n. reflexivity.
Defined.

(** The characters of a string with characters of one, two, three and
    four bytes. *)
Lemma code_points_example :
  code_points "né€😀" = ["n"; "é"; "€"; "😀"] ∧ String.length "né€😀" = 10%nat.
Proof. split; reflexivity. Qed.

(** X7 at an input file that holds one publication object instead of an
    array of publications: its two keys are logged; and at an input file
    that holds the string ["né"]: its two characters are logged. *)
Lemma non_array_input_logged_witness :
  let content := sample_publication "p1" [sample_document "d1"] in
  (∃ b, process_documents_concurrently strict_int (Some content) None
          default_max_concurrency always_answers = Some (Returned b) ∧
        parse_log b = [ErrorParsingPublication (JStr "pub_id");
                       ErrorParsingPublication (JStr "documents")] ∧
        all_documents b = [] ∧ headings_data b = ∅)
  ∧ (∃ b, process_documents_concurrently strict_int (Some (JStr "né")) None
            default_max_concurrency always_answers = Some (Returned b) ∧
          parse_log b = [ErrorParsingPublication (JStr "n");
                         ErrorParsingPublication (JStr "é")]).
Proof.
  intros content. split.
  - destruct (non_array_input_logged strict_int content
                [JStr "pub_id"; JStr "documents"] None default_max_concurrency
                always_answers) as (b & Hrun & _ & Hlog & Hdocs & Hh & _).
    + left. eexists. split; reflexivity.
    + done.
    + exists b. split; [exact Hrun|]. split; [exact Hlog|].
      split; [exact Hdocs|exact Hh].
  - destruct (non_array_input_logged strict_int (JStr "né")
                [JStr "n"; JStr "é"] None default_max_concurrency
                always_answers) as (b & Hrun & _ & Hlog & _).
    + right. eexists. split; reflexivity.
    + done.
    + exists b. split; [exact Hrun|exact Hlog].
Defined.

(** X8 at capacity 0 with one pending document. *)
Lemma capacity_edge_cases_witness :
  let content := JArr [sample_publication "p1" [sample_document "d1"]] in
  process_documents_concurrently strict_int (Some content) None 0 always_answers
  = None.
Proof.
  intros content.
  destruct (capacity_edge_cases strict_int content
              [sample_publication "p1" [sample_document "d1"]] None 0
              always_answers eq_refl) as (_ & Hzero & _).
  destruct (Hzero eq_refl) as [Hrun _]; [|exact Hrun].
  vm_compute. discriminate.
Defined.

(** X9 at capacity 0 and a store that has the only document. *)
Lemma nothing_pending_noop_witness :
  let content := JArr [sample_publication "p1" [sample_document "d1"]] in
  let existing : store := {["d1" := JStr "loaded"]} in
  ∃ b, process_documents_concurrently strict_int (Some content) (Some existing) 0
         always_answers = Some (Returned b) ∧
       gathered b = [] ∧ headings_data b = existing.
Proof.
  intros content existing.
  destruct (nothing_pending_noop strict_int content
              [sample_publication "p1" [sample_document "d1"]] existing 0
              always_answers eq_refl ltac:(done))
    as (b & Hrun & _ & Hg & _ & Hh & _).
  - intros pub doc Hpub Hdoc.
    apply list_elem_of_singleton in Hpub as ->.
    apply list_elem_of_singleton in Hdoc as ->. by eexists.
  - exists b. split; [exact Hrun|]. split; [exact Hg|exact Hh].
Defined.

(** X10 at an input of two documents. *)
Lemma main_outcome_witness :
  let content := JArr [sample_publication "p1"
                         [sample_document "d1"; sample_document "d2"]] in
  ∃ b, main strict_int (Some content) None always_answers = Some (Returned b) ∧
       output_after None (main strict_int (Some content) None always_answers)
       = Some (headings_data b).
Proof.
  intros content.
  destruct (main_outcome strict_int content None always_answers) as (_ & Hok & _).
  apply Hok. exact I.
Defined.

(** X11 at a store with an old entry and one new document. *)
Lemma store_only_grows_witness :
  let content := JArr [sample_publication "p1" [sample_document "d2"]] in
  let existing : store := {["d1" := JStr "loaded"]} in
  ∃ b, process_documents_concurrently strict_int (Some content) (Some existing)
         default_max_concurrency always_answers = Some (Returned b) ∧
       existing ⊆ headings_data b ∧
       dom (headings_data b) = ({["d1"; "d2"]} : gset string).
Proof.
  intros content existing.
  destruct (store_only_grows strict_int content
              [sample_publication "p1" [sample_document "d2"]] (Some existing)
              default_max_concurrency always_answers eq_refl eq_refl)
    as (b & Hrun & Hsub & Hdom & _).
  exists b. split; [exact Hrun|]. split; [exact Hsub|].
  rewrite Hdom. clear Hsub Hdom.
  vm_compute in Hrun. injection Hrun as Hb. subst b.
  simpl. unfold existing. rewrite dom_singleton_L. set_solver.
Defined.

(** X12 at two documents with the identifier [a]: the first fails, the
    second succeeds, and [a] is not reported. *)
Lemma failed_docs_spec_witness :
  let content := JArr [sample_publication "p1"
                         [sample_document "a"; sample_document "a"]] in
  ∃ b, process_documents_concurrently strict_int (Some content) None
         default_max_concurrency fails_first = Some (Returned b) ∧
       gathered b = [None; Some [("a", body_only_sections)]] ∧
       "a" ∉ failed_docs b.
Proof.
  intros content.
  destruct (failed_docs_spec strict_int content
              [sample_publication "p1" [sample_document "a"; sample_document "a"]]
              None default_max_concurrency fails_first eq_refl eq_refl)
    as (b & Hrun & Hspec).
  exists b. split; [exact Hrun|].
  vm_compute in Hrun. injection Hrun as Hb. subst b.
  split; [reflexivity|].
  intros Hin. apply Hspec in Hin as [_ Hall].
  specialize (Hall 1%nat (mkTextDocument "a" [mkTextPage 1 "text"]) eq_refl eq_refl).
  discriminate Hall.
Defined.

(** X13 at two documents with the identifier [a] that both succeed: the
    answer to the second one is stored. *)
Lemma last_success_stored_witness :
  let content := JArr [sample_publication "p1"
                         [sample_document "a"; sample_document "a"]] in
  ∃ b, process_documents_concurrently strict_int (Some content) None
         default_max_concurrency body_first = Some (Returned b) ∧
       gathered b = [Some [("a", body_only_sections)]; Some [("a", no_sections)]] ∧
       headings_data b !! "a" = Some all_null.
Proof.
  intros content.
  destruct (last_success_stored strict_int content
              [sample_publication "p1" [sample_document "a"; sample_document "a"]]
              None default_max_concurrency body_first eq_refl eq_refl)
    as (b & Hrun & Hlast).
  exists b. split; [exact Hrun|].
  vm_compute in Hrun. injection Hrun as Hb. subst b.
  split; [reflexivity|].
  apply (Hlast [mkTextDocument "a" [mkTextPage 1 "text"]]
               (mkTextDocument "a" [mkTextPage 1 "text"]) [] no_sections);
    [reflexivity|reflexivity|].
  intros j doc Hj. discriminate Hj.
Defined.

(** X14 at [a], which fails, and [b], which succeeds, on an empty store. *)
Lemma summary_counts_witness :
  let content := JArr [sample_publication "p1"
                         [sample_document "a"; sample_document "b"]] in
  ∃ b, process_documents_concurrently strict_int (Some content) None
         default_max_concurrency fails_first = Some (Returned b) ∧
       size (headings_data b) = 1%nat ∧
       length (results b) = 1%nat ∧ length (failed_docs b) = 1%nat.
Proof.
  intros content.
  destruct (summary_counts strict_int content
              [sample_publication "p1" [sample_document "a"; sample_document "b"]]
              None default_max_concurrency fails_first eq_refl eq_refl)
    as (b & Hrun & Hcounts).
  exists b. split; [exact Hrun|].
  vm_compute in Hrun. injection Hrun as Hb. subst b.
  assert (NoDup ["a"; "b"]) as Hnd by by_computation.
  destruct (Hcounts Hnd) as [Hsize _].
  split; [exact Hsize|]. split; reflexivity.
Defined.

(** X15 at a first run in which [a] fails and a second run in which the
    collaborator answers: the second run processes [a] only and adds it. *)
Lemma resume_after_failures_witness :
  let content := JArr [sample_publication "p1"
                         [sample_document "a"; sample_document "b"]] in
  ∃ b1 b2,
    process_documents_concurrently strict_int (Some content) None
      default_max_concurrency fails_first = Some (Returned b1) ∧
    process_documents_concurrently strict_int (Some content)
      (Some (headings_data b1)) default_max_concurrency always_answers
    = Some (Returned b2) ∧
    doc_id <$> all_documents b2 = ["a"] ∧
    headings_data b1 ⊆ headings_data b2.
Proof.
  intros content.
  destruct (resume_after_failures strict_int content
              [sample_publication "p1" [sample_document "a"; sample_document "b"]]
              None default_max_concurrency fails_first always_answers
              eq_refl eq_refl)
    as (b1 & b2 & Hrun1 & Hrun2 & _ & Hpending & _ & Hsub).
  exists b1, b2. split; [exact Hrun1|]. split; [exact Hrun2|].
  split; [|exact Hsub]. rewrite Hpending. clear Hrun2 Hpending Hsub.
  vm_compute in Hrun1. injection Hrun1 as Hb. subst b1. reflexivity.
Defined.

(** X16 at three tasks, two of them admitted and one of these gone. *)
Lemma pool_event_count_witness :
  let outcomes := [Returned None; Raised RetryError;
                   Returned (Some [("d3", body_only_sections)])] in
  let schedule := [Acquire 0; Acquire 1; Exit 1] in
  ∃ p, pool_run outcomes schedule (pool_init 2 3) = Some p ∧
       sum_list (task_progress <$> task_states p) = 3%nat.
Proof.
  intros outcomes schedule.
  exists (mkPool 1 [Holding; Exited (Raised RetryError); Waiting]).
  assert (pool_run outcomes schedule (pool_init 2 3)
          = Some (mkPool 1 [Holding; Exited (Raised RetryError); Waiting])) as Hrun
    by reflexivity.
  destruct (pool_event_count 2 outcomes 3 schedule _ Hrun) as [Hcount _].
  split; [exact Hrun|]. by rewrite <-Hcount.
Defined.

(** X17 at capacity 1 with the first of two tasks inside its block. *)
Lemma pool_no_deadlock_witness :
  let outcomes := [Returned None; Returned (Some [("d2", body_only_sections)])] in
  ∃ ev p', pool_step outcomes ev (mkPool 0 [Holding; Waiting]) = Some p'.
Proof.
  intros outcomes.
  apply (pool_no_deadlock 1 outcomes [Acquire 0%nat]); [lia|reflexivity|].
  exists 1%nat, Waiting. split; [reflexivity|]. simpl. lia.
Defined.

(** X18 at capacity 1 and two tasks that run in the reverse order. *)
Lemma pool_completion_witness :
  let outcomes := [Returned None; Returned (Some [("d2", body_only_sections)])] in
  let schedule := [Acquire 1; Exit 1; Acquire 0; Exit 0] in
  ∃ p, pool_run outcomes schedule (pool_init 1 2) = Some p ∧
       sem_value p = 1 ∧ task_states p = Exited <$> outcomes.
Proof.
  intros outcomes schedule.
  exists (mkPool 1 (Exited <$> outcomes)).
  assert (pool_run outcomes schedule (pool_init 1 2)
          = Some (mkPool 1 (Exited <$> outcomes))) as Hrun by reflexivity.
  destruct (pool_completion 1 outcomes schedule _ eq_refl Hrun) as (Hv & Hs & _).
  - repeat constructor.
  - split; [exact Hrun|]. split; [exact Hv|exact Hs].
Defined.

(** X19 at a payload with a key that [Sections] does not declare. *)
Lemma sections_validation_reads_declared_keys_witness :
  Sections_model_validate strict_int
    (JObj (("confidence", JInt 1) ::
           ((λ name, (name, JNull)) <$> reverse section_names)))
  = Some no_sections.
Proof.
  destruct (sections_validation_reads_declared_keys strict_int) as [Hsame _].
  rewrite (Hsame _ ((λ name, (name, JNull)) <$> section_names)); [reflexivity|].
  intros name Hname. unfold section_names in Hname.
  repeat (apply elem_of_cons in Hname as [->|Hname]; [reflexivity|]).
  by apply elem_of_nil in Hname.
Defined.

(** X20 at two collaborators that differ on the first task only. *)
Lemma task_isolation_witness :
  let content := JArr [sample_publication "p1"
                         [sample_document "a"; sample_document "b"]] in
  ∃ b b',
    process_documents_concurrently strict_int (Some content) None
      default_max_concurrency fails_first = Some (Returned b) ∧
    process_documents_concurrently strict_int (Some content) None
      default_max_concurrency always_answers = Some (Returned b') ∧
    gathered b !! 1%nat = gathered b' !! 1%nat ∧
    gathered b !! 0%nat ≠ gathered b' !! 0%nat.
Proof.
  intros content.
  destruct (task_isolation strict_int content
              [sample_publication "p1" [sample_document "a"; sample_document "b"]]
              None default_max_concurrency fails_first always_answers 1%nat
              eq_refl eq_refl)
    as (b & b' & Hrun & Hrun' & _ & Hsame).
  exists b, b'. split; [exact Hrun|]. split; [exact Hrun'|].
  vm_compute in Hrun. injection Hrun as Hb. subst b.
  vm_compute in Hrun'. injection Hrun' as Hb'. subst b'.
  split; [|discriminate].
  apply (Hsame (mkTextDocument "b" [mkTextPage 1 "text"])); reflexivity.
Defined.

(** X21 at two results in both orders. *)
Lemma merge_order_irrelevant_witness :
  let r1 : Result := [("d1", body_only_sections)] in
  let r2 : Result := [("d2", no_sections)] in
  combine_results ∅ [r1; r2] = combine_results ∅ [r2; r1].
Proof.
  intros r1 r2. apply merge_order_irrelevant.
  - apply Permutation_swap.
  - by_computation.
Defined.
